(** * biosite: the webhook ingestion-and-dedup pipeline of [app.py]

    A shallow embedding of the WhatsApp webhook handlers of [src/app.py]
    (link extraction, media download, fingerprinting, dedup-insert) and the
    properties the specification states about them; then the helpers and the
    read routes of the gallery, and what the code shows about the table, the
    media download and the pages.

    Python values are modelled as they are at run time: a [str] is a
    sequence of Unicode code points, parsed JSON is a tree of dicts, lists
    and scalars, an exception is a value of [exn] threaded through an
    error-and-state monad, the [whatsapp.deals] table is a list of rows. *)

From Stdlib Require Import Ascii String DecimalString.
From Stdlib Require Import List ZArith NArith Bool Lia.
From Stdlib Require Import Sorting.Sorted Sorting.Permutation.
Import ListNotations.

Set Implicit Arguments.
Set Warnings "-register-all".

(* ================================================================== *)
(** * Python strings *)

Module PyStr.

(** A Python [str]: its code points, in order. *)
Definition codepoint := N.
Definition pystr := list codepoint.

(** An ASCII literal of the source, as a [pystr]. *)
Definition lit (s : string) : pystr :=
  map N_of_ascii (list_ascii_of_string s).

Definition pystr_eqb (a b : pystr) : bool :=
  if list_eq_dec N.eq_dec a b then true else false.

(** [bytes]: values 0..255. *)
Definition bytes := list Z.

Local Open Scope N_scope.

(** Lone surrogates (which [json.loads] does produce from an escaped
    [\ud800]) cannot be encoded: [str.encode] raises [UnicodeEncodeError],
    here [None]. *)
Definition utf8_char (c : codepoint) : option bytes :=
  let b (n : N) := Z.of_N n in
  if c <? 0x80 then Some [b c]
  else if c <? 0x800 then Some [b (0xC0 + c / 64); b (0x80 + c mod 64)]
  else if c <? 0x10000 then
    if (0xD800 <=? c) && (c <=? 0xDFFF) then None
    else Some [b (0xE0 + c / 4096); b (0x80 + (c / 64) mod 64);
               b (0x80 + c mod 64)]
  else if c <? 0x110000 then
    Some [b (0xF0 + c / 262144); b (0x80 + (c / 4096) mod 64);
          b (0x80 + (c / 64) mod 64); b (0x80 + c mod 64)]
  else None.

(** [s.encode("utf-8")] *)
Fixpoint encode_utf8 (s : pystr) : option bytes :=
  match s with
  | [] => Some []
  | c :: s' =>
      match utf8_char c, encode_utf8 s' with
      | Some bs, Some rest => Some (bs ++ rest)
      | _, _ => None
      end
  end.

End PyStr.
Export PyStr.

Arguments lit s%_string.

(* ================================================================== *)
(** * hashlib.sha256 (FIPS 180-4) *)

Module Hashlib.

Local Open Scope Z_scope.

Definition wrap32 (x : Z) : Z := x mod 2 ^ 32.
Definition add32 (x y : Z) : Z := wrap32 (x + y).
Definition rotr (n x : Z) : Z :=
  Z.lor (Z.shiftr x n) (wrap32 (Z.shiftl x (32 - n))).
Definition not32 (x : Z) : Z := Z.lxor x 0xFFFFFFFF.

Definition choose (x y z : Z) : Z :=
  Z.lxor (Z.land x y) (Z.land (not32 x) z).
Definition majority (x y z : Z) : Z :=
  Z.lxor (Z.lxor (Z.land x y) (Z.land x z)) (Z.land y z).
Definition big_sigma0 x := Z.lxor (Z.lxor (rotr 2 x) (rotr 13 x)) (rotr 22 x).
Definition big_sigma1 x := Z.lxor (Z.lxor (rotr 6 x) (rotr 11 x)) (rotr 25 x).
Definition small_sigma0 x := Z.lxor (Z.lxor (rotr 7 x) (rotr 18 x)) (Z.shiftr x 3).
Definition small_sigma1 x := Z.lxor (Z.lxor (rotr 17 x) (rotr 19 x)) (Z.shiftr x 10).

(** The constants are the first 32 bits of the fractional parts of the
    square roots (initial hash) and cube roots (round constants) of the
    first primes; they are computed rather than tabulated. *)
Definition first_primes : list Z :=
  [2; 3; 5; 7; 11; 13; 17; 19; 23; 29; 31; 37; 41; 43; 47; 53;
   59; 61; 67; 71; 73; 79; 83; 89; 97; 101; 103; 107; 109; 113; 127; 131;
   137; 139; 149; 151; 157; 163; 167; 173; 179; 181; 191; 193; 197; 199;
   211; 223; 227; 229; 233; 239; 241; 251; 257; 263; 269; 271; 277; 281;
   283; 293; 307; 311].

(** Integer cube root, one bit at a time from bit [k-1] down. *)
Fixpoint cube_root_bits (k : nat) (n r : Z) : Z :=
  match k with
  | O => r
  | S k' =>
      let r' := r + 2 ^ Z.of_nat k' in
      cube_root_bits k' n (if r' * r' * r' <=? n then r' else r)
  end.

Definition frac_sqrt32 (p : Z) : Z := wrap32 (Z.sqrt (p * 2 ^ 64)).
Definition frac_cbrt32 (p : Z) : Z := wrap32 (cube_root_bits 40 (p * 2 ^ 96) 0).

Definition round_constants : list Z :=
  Eval vm_compute in map frac_cbrt32 first_primes.

Record hash_state := HS {
  ha : Z; hb : Z; hc : Z; hd : Z; he : Z; hf : Z; hg : Z; hh : Z }.

Definition initial_hash : hash_state :=
  Eval vm_compute in
    match map frac_sqrt32 (firstn 8 first_primes) with
    | [a; b; c; d; e; f; g; h] => HS a b c d e f g h
    | _ => HS 0 0 0 0 0 0 0 0
    end.

(** One round: [w] is the sliding window of the sixteen most recent
    schedule words, its head being the word of this round. *)
Definition round (st : hash_state * list Z) (k : Z) : hash_state * list Z :=
  let '(HS a b c d e f g h, w) := st in
  let wt := nth 0 w 0 in
  let t1 := add32 (add32 (add32 (add32 h (big_sigma1 e)) (choose e f g)) k) wt in
  let t2 := add32 (big_sigma0 a) (majority a b c) in
  let next :=
    add32 (add32 (add32 (small_sigma1 (nth 14 w 0)) (nth 9 w 0))
                 (small_sigma0 (nth 1 w 0))) wt in
  (HS (add32 t1 t2) a b c (add32 d t1) e f g, tl w ++ [next]).

Definition compress (h : hash_state) (block_words : list Z) : hash_state :=
  let '(HS a b c d e f g h', _) :=
    fold_left round round_constants (h, block_words) in
  HS (add32 (ha h) a) (add32 (hb h) b) (add32 (hc h) c) (add32 (hd h) d)
     (add32 (he h) e) (add32 (hf h) f) (add32 (hg h) g) (add32 (hh h) h').

(** Big-endian 32-bit words of a byte string (whole words only). *)
Fixpoint words_of (bs : list Z) : list Z :=
  match bs with
  | b0 :: b1 :: b2 :: b3 :: rest =>
      (((b0 * 256 + b1) * 256 + b2) * 256 + b3) :: words_of rest
  | _ => []
  end.

Definition be_bytes (n : nat) (x : Z) : list Z :=
  map (fun i => (x / 256 ^ Z.of_nat i) mod 256) (rev (seq 0 n)).

(** Padding: a 1 bit, zeros up to 56 mod 64, the bit length on 8 bytes. *)
Definition pad (msg : list Z) : list Z :=
  let len := Z.of_nat (length msg) in
  let zeros := Z.to_nat ((55 - len) mod 64) in
  msg ++ [0x80] ++ repeat 0 zeros ++ be_bytes 8 (8 * len).

Fixpoint blocks (n : nat) (h : hash_state) (ws : list Z) : hash_state :=
  match n with
  | O => h
  | S n' => blocks n' (compress h (firstn 16 ws)) (skipn 16 ws)
  end.

Definition digest (msg : list Z) : hash_state :=
  let ws := words_of (pad msg) in
  blocks (length ws / 16) initial_hash ws.

Definition hex_digit (d : Z) : codepoint :=
  Z.to_N (if d <? 10 then 48 + d else 87 + d).

Definition hex8 (w : Z) : pystr :=
  map (fun i => hex_digit ((w / 16 ^ Z.of_nat i) mod 16)) (rev (seq 0 8)).

(** [hashlib.sha256(data).hexdigest()] *)
Definition hexdigest (msg : list Z) : pystr :=
  let '(HS a b c d e f g h) := digest msg in
  hex8 a ++ hex8 b ++ hex8 c ++ hex8 d ++ hex8 e ++ hex8 f ++ hex8 g ++ hex8 h.

End Hashlib.

(* ================================================================== *)
(** * Python values and built-ins *)

Module Py.

(** The exceptions the handlers can meet.  All of them are subclasses of
    [Exception], which is what [webhook_receive] catches. *)
Inductive exn : Type :=
| AttributeError        (* [.get] on something that is not a dict *)
| TypeError             (* not iterable, not subscriptable, [int(None)], ... *)
| KeyError
| IndexError
| ValueError            (* [int("abc")], [int(nan)] *)
| OverflowError         (* [int(inf)] *)
| TimestampOutOfRange   (* [fromtimestamp]: ValueError, OverflowError or
                           OSError, according to the magnitude *)
| UnicodeEncodeError
| RuntimeError          (* raised by [db_conn] and [download_media] *)
| RequestException      (* [requests]: connection error, timeout *)
| HTTPError             (* [raise_for_status] *)
| JSONDecodeError       (* [Response.json] *)
| DatabaseError.        (* [psycopg]: connection or statement failure *)

Inductive result (A : Type) : Type :=
| Ok (a : A)
| Raise (e : exn).
Arguments Ok {A} a.
Arguments Raise {A} e.

Definition rbind {A B} (r : result A) (k : A -> result B) : result B :=
  match r with
  | Ok a => k a
  | Raise e => Raise e
  end.

(** A Python [float]: NaN, an infinity, or [(-1)^neg * m * 2^e]. *)
Inductive pyfloat : Type :=
| FNan
| FInf (neg : bool)
| FFin (neg : bool) (m : N) (e : Z).

(** What [json.loads] returns. A dict is kept as the list of its
    [key: value] pairs in document order; as in [json.loads], the last
    pair of a repeated key gives its value. *)
Inductive json : Type :=
| JNull
| JBool (b : bool)
| JInt (n : Z)
| JFloat (f : pyfloat)
| JStr (s : pystr)
| JArr (items : list json)
| JObj (pairs : list (pystr * json)).

(** Truth value, as tested by [if x], [x or y]. *)
Definition py_truthy (x : json) : bool :=
  match x with
  | JNull => false
  | JBool b => b
  | JInt n => negb (n =? 0)%Z
  | JFloat (FFin _ m _) => negb (m =? 0)%N
  | JFloat _ => true
  | JStr s => match s with [] => false | _ => true end
  | JArr l => match l with [] => false | _ => true end
  | JObj l => match l with [] => false | _ => true end
  end.

(** [x or y] *)
Definition py_or (x y : json) : json := if py_truthy x then x else y.

Fixpoint dict_lookup (pairs : list (pystr * json)) (key : pystr)
  : option json :=
  match pairs with
  | [] => None
  | (k, v) :: rest =>
      match dict_lookup rest key with
      | Some v' => Some v'
      | None => if pystr_eqb k key then Some v else None
      end
  end.

(** [x.get(key, default)]; [x.get(key)] is [py_get x key JNull]. *)
Definition py_get (x : json) (key : pystr) (default : json) : result json :=
  match x with
  | JObj pairs =>
      Ok (match dict_lookup pairs key with Some v => v | None => default end)
  | _ => Raise AttributeError
  end.

Fixpoint dict_keys (pairs : list (pystr * json)) (seen : list pystr)
  : list pystr :=
  match pairs with
  | [] => []
  | (k, _) :: rest =>
      if existsb (pystr_eqb k) seen then dict_keys rest seen
      else k :: dict_keys rest (k :: seen)
  end.

(** The items a [for] loop over [x] visits. *)
Definition py_iter (x : json) : result (list json) :=
  match x with
  | JArr l => Ok l
  | JObj pairs => Ok (map JStr (dict_keys pairs []))
  | JStr s => Ok (map (fun c => JStr [c]) s)
  | _ => Raise TypeError
  end.

(** [x[0]] *)
Definition py_index0 (x : json) : result json :=
  match x with
  | JArr (a :: _) => Ok a
  | JArr [] => Raise IndexError
  | JStr (c :: _) => Ok (JStr [c])
  | JStr [] => Raise IndexError
  | JObj _ => Raise KeyError
  | _ => Raise TypeError
  end.

(** [x == "literal"] *)
Definition py_eq_str (x : json) (s : pystr) : bool :=
  match x with
  | JStr t => pystr_eqb t s
  | _ => false
  end.

(** ** [int(x)] *)

Local Open Scope N_scope.

(** Non-ASCII characters with [str.isspace()]. *)
Definition unicode_space (c : codepoint) : bool :=
  (c =? 0x85) || (c =? 0xA0) || (c =? 0x1680)
  || ((0x2000 <=? c) && (c <=? 0x200A))
  || (c =? 0x2028) || (c =? 0x2029) || (c =? 0x202F) || (c =? 0x205F)
  || (c =? 0x3000).

(** Whitespace [int] strips: TAB..CR, space, and the non-ASCII spaces. *)
Definition int_space (c : codepoint) : bool :=
  ((9 <=? c) && (c <=? 13)) || (c =? 32) || unicode_space c.

(** The zero of every run of decimal digits (Unicode category Nd). *)
Definition decimal_zeros : list codepoint :=
  [0x30; 0x660; 0x6F0; 0x7C0; 0x966; 0x9E6; 0xA66; 0xAE6; 0xB66; 0xBE6;
   0xC66; 0xCE6; 0xD66; 0xDE6; 0xE50; 0xED0; 0xF20; 0x1040; 0x1090;
   0x17E0; 0x1810; 0x1946; 0x19D0; 0x1A80; 0x1A90; 0x1B50; 0x1BB0;
   0x1C40; 0x1C50; 0xA620; 0xA8D0; 0xA900; 0xA9D0; 0xA9F0; 0xAA50;
   0xABF0; 0xFF10; 0x104A0; 0x10D30; 0x11066; 0x110F0; 0x11136; 0x111D0;
   0x112F0; 0x11450; 0x114D0; 0x11650; 0x116C0; 0x11730; 0x118E0;
   0x11950; 0x11C50; 0x11D50; 0x11DA0; 0x16A60; 0x16AC0; 0x16B50;
   0x1D7CE; 0x1D7D8; 0x1D7E2; 0x1D7EC; 0x1D7F6; 0x1E140; 0x1E2F0;
   0x1E950; 0x1FBF0].

Definition decimal_value (c : codepoint) : option Z :=
  match find (fun z => (z <=? c) && (c <? z + 10)) decimal_zeros with
  | Some z => Some (Z.of_N (c - z))
  | None => None
  end.

Definition underscore : codepoint := 95.

(** Digits, single underscores allowed between two digits; returns the
    value and the number of digits read. *)
Fixpoint digits_value (s : pystr) (acc : Z) (n : N) : option (Z * N) :=
  match s with
  | [] => Some (acc, n)
  | c :: s' =>
      match decimal_value c with
      | Some d => digits_value s' (10 * acc + d)%Z (n + 1)
      | None =>
          if c =? underscore then
            match s' with
            | c2 :: s'' =>
                match decimal_value c2 with
                | Some d => digits_value s'' (10 * acc + d)%Z (n + 1)
                | None => None
                end
            | [] => None
            end
          else None
      end
  end.

Fixpoint lstrip (p : codepoint -> bool) (s : pystr) : pystr :=
  match s with
  | c :: s' => if p c then lstrip p s' else s
  | [] => []
  end.

Definition strip (p : codepoint -> bool) (s : pystr) : pystr :=
  rev (lstrip p (rev (lstrip p s))).

(** [int(s)] for a [str]; [max_digits] is [sys.get_int_max_str_digits()]
    (4300 unless configured, 0 for no limit). *)
Definition int_of_str (max_digits : N) (s : pystr) : result Z :=
  let body := strip int_space s in
  let '(neg, ds) :=
    match body with
    | 45 :: r => (true, r)
    | 43 :: r => (false, r)
    | _ => (false, body)
    end in
  match ds with
  | [] => Raise ValueError
  | c :: _ =>
      if c =? underscore then Raise ValueError
      else
        match digits_value ds 0 0 with
        | Some (v, n) =>
            if negb (max_digits =? 0) && (max_digits <? n)
            then Raise ValueError
            else Ok (if neg then - v else v)%Z
        | None => Raise ValueError
        end
  end.

Definition int_of_float (f : pyfloat) : result Z :=
  match f with
  | FNan => Raise ValueError
  | FInf _ => Raise OverflowError
  | FFin neg m e =>
      let mag := (if 0 <=? e then Z.of_N m * 2 ^ e
                  else Z.of_N m / 2 ^ (- e))%Z in
      Ok (if neg then - mag else mag)%Z
  end.

(** [int(x)] *)
Definition py_int (max_digits : N) (x : json) : result Z :=
  match x with
  | JStr s => int_of_str max_digits s
  | JInt n => Ok n
  | JBool b => Ok (if b then 1 else 0)%Z
  | JFloat f => int_of_float f
  | JNull | JArr _ | JObj _ => Raise TypeError
  end.

(** ** Formatting: what [f"{x}"] inserts *)

Definition str_of_int (n : Z) : pystr :=
  lit (NilZero.string_of_int (Z.to_int n)).

(** [repr] is the text of floats, lists and dicts (shortest round-trip
    float repr, quoting and escaping of nested strings), which is left to
    the environment. *)
Definition py_format (repr : json -> pystr) (x : json) : pystr :=
  match x with
  | JNull => lit "None"
  | JBool true => lit "True"
  | JBool false => lit "False"
  | JInt n => str_of_int n
  | JStr s => s
  | JFloat _ | JArr _ | JObj _ => repr x
  end.

End Py.
Export Py.

(* ================================================================== *)
(** * datetime (aware, UTC) *)

Module Datetime.

Local Open Scope Z_scope.

(** A [datetime] with [tzinfo=timezone.utc]: its civil fields. *)
Record datetime : Type := DT {
  year : Z; month : Z; day : Z;
  hour : Z; minute : Z; second : Z; microsecond : Z }.

Definition days_before_month : list Z :=
  [0; 31; 59; 90; 120; 151; 181; 212; 243; 273; 304; 334].

Definition days_in_month : list Z :=
  [31; 28; 31; 30; 31; 30; 31; 31; 30; 31; 30; 31].

Definition is_leap (y : Z) : bool :=
  (y mod 4 =? 0) && (negb (y mod 100 =? 0) || (y mod 400 =? 0)).

Definition b2z (b : bool) : Z := if b then 1 else 0.

(** Days of the year before the first of month [m]. *)
Definition days_before (m : Z) (leapyear : bool) : Z :=
  nth (Z.to_nat (m - 1)) days_before_month 0 + b2z ((2 <? m) && leapyear).

(** Month and day of day [n] (from 0) of a year. *)
Definition month_day (n : Z) (leapyear : bool) : Z * Z :=
  let m := Z.shiftr (n + 50) 5 in
  let preceding := days_before m leapyear in
  if n <? preceding then
    let m' := m - 1 in
    let preceding' :=
      preceding - (nth (Z.to_nat (m' - 1)) days_in_month 0
                   + b2z ((m' =? 2) && leapyear)) in
    (m', n - preceding' + 1)
  else (m, n - preceding + 1).

(** Proleptic Gregorian ordinal (1 is 0001-01-01) to year, month, day:
    the 400-year cycle, the century, the 4-year cycle and the year of the
    day, then its month. *)
Definition ord2ymd (ordinal : Z) : Z * Z * Z :=
  let n := ordinal - 1 in
  let n400 := n / 146097 in
  let n := n mod 146097 in
  let n100 := n / 36524 in
  let n := n mod 36524 in
  let n4 := n / 1461 in
  let n := n mod 1461 in
  let n1 := n / 365 in
  let n := n mod 365 in
  let y := n400 * 400 + 1 + n100 * 100 + n4 * 4 + n1 in
  if (n1 =? 4) || (n100 =? 4) then (y - 1, 12, 31)
  else
    let leapyear := (n1 =? 3) && (negb (n4 =? 24) || (n100 =? 3)) in
    let '(m, d) := month_day n leapyear in
    (y, m, d).

(** The inverse: year, month, day to ordinal. *)
Definition ymd2ord (y m d : Z) : Z :=
  let y1 := y - 1 in
  y1 * 365 + y1 / 4 - y1 / 100 + y1 / 400 + days_before m (is_leap y) + d.

Definition epoch_ordinal : Z := 719163.    (* 1970-01-01 *)
Definition max_ordinal : Z := 3652059.     (* 9999-12-31 *)

(** [datetime.fromtimestamp(t, tz=timezone.utc)] for an [int] [t]:
    years 1 to 9999 only. *)
Definition fromtimestamp (t : Z) : result datetime :=
  let ordinal := epoch_ordinal + t / 86400 in
  let sod := t mod 86400 in
  if (1 <=? ordinal) && (ordinal <=? max_ordinal) then
    let '(y, m, d) := ord2ymd ordinal in
    Ok (DT y m d (sod / 3600) (sod mod 3600 / 60) (sod mod 60) 0)
  else Raise TimestampOutOfRange.

(** Zero-padded decimal on [w] digits. *)
Definition digits (w : nat) (n : Z) : pystr :=
  map (fun i => Z.to_N (48 + (n / 10 ^ Z.of_nat i) mod 10)) (rev (seq 0 w)).

(** [str(dt)], that is [dt.isoformat(sep=" ")]. *)
Definition str_datetime (dt : datetime) : pystr :=
  digits 4 (year dt) ++ lit "-" ++ digits 2 (month dt) ++ lit "-"
  ++ digits 2 (day dt) ++ lit " "
  ++ digits 2 (hour dt) ++ lit ":" ++ digits 2 (minute dt) ++ lit ":"
  ++ digits 2 (second dt)
  ++ (if microsecond dt =? 0 then [] else lit "." ++ digits 6 (microsecond dt))
  ++ lit "+00:00".

(** The field ranges of a [datetime] object. *)
Definition valid_datetime (dt : datetime) : Prop :=
  1 <= year dt <= 9999 /\ 1 <= month dt <= 12 /\ 1 <= day dt <= 31
  /\ 0 <= hour dt < 24 /\ 0 <= minute dt < 60 /\ 0 <= second dt < 60
  /\ 0 <= microsecond dt < 1000000.

End Datetime.
Export Datetime.

(* ================================================================== *)
(** * re: the fragment of regular expressions [URL_RE] uses *)

Module Re.

Local Open Scope N_scope.

(** Patterns, matched by backtracking as [re] does, greedy operators
    trying the longer alternative first. *)
Inductive regex : Type :=
| Chr (p : codepoint -> bool)       (* one character of a class *)
| Seq (r1 r2 : regex)
| Opt (r : regex)                   (* r? *)
| Plus (p : codepoint -> bool).     (* [class]+ *)

(** [class]* followed by the continuation [k]. *)
Fixpoint match_star (p : codepoint -> bool) (s : pystr)
         (k : pystr -> option pystr) : option pystr :=
  match s with
  | c :: s' =>
      if p c then
        match match_star p s' k with
        | Some rest => Some rest
        | None => k s
        end
      else k s
  | [] => k []
  end.

(** [match_re r s k]: match [r] at the start of [s], then [k] on what is
    left; the result is the text left after the whole match. *)
Fixpoint match_re (r : regex) (s : pystr) (k : pystr -> option pystr)
  : option pystr :=
  match r with
  | Chr p =>
      match s with
      | c :: s' => if p c then k s' else None
      | [] => None
      end
  | Seq r1 r2 => match_re r1 s (fun s' => match_re r2 s' k)
  | Opt r1 =>
      match match_re r1 s k with
      | Some rest => Some rest
      | None => k s
      end
  | Plus p =>
      match s with
      | c :: s' => if p c then match_star p s' k else None
      | [] => None
      end
  end.

(** The text a pattern matches at the start of [s], if any. *)
Definition match_prefix (r : regex) (s : pystr) : option pystr :=
  match match_re r s Some with
  | Some rest => Some (firstn (length s - length rest) s)
  | None => None
  end.

(** [findall] for a pattern that is one group and matches no empty
    text: the matches from left to right, each search resuming where the
    previous match ended.  [skip] counts the characters of the current
    match still to be passed over. *)
Fixpoint findall_from (r : regex) (s : pystr) (skip : nat) : list pystr :=
  match s with
  | [] => []
  | _ :: s' =>
      match skip with
      | S n => findall_from r s' n
      | O =>
          match match_prefix r s with
          | Some m => m :: findall_from r s' (length m - 1)
          | None => findall_from r s' 0
          end
      end
  end.

Definition findall (r : regex) (s : pystr) : list pystr :=
  findall_from r s 0.

(** A literal letter under [re.IGNORECASE]: both ASCII cases, and the
    non-ASCII characters that case-fold to it. *)
Definition ignorecase (lower : codepoint) (c : codepoint) : bool :=
  (c =? lower) || (c =? lower - 32)
  || ((lower =? 115) && (c =? 0x17F))                      (* s: long s *)
  || ((lower =? 107) && (c =? 0x212A))                     (* k: kelvin *)
  || ((lower =? 105) && ((c =? 0x130) || (c =? 0x131))).   (* i *)

Definition literal (x : codepoint) (c : codepoint) : bool := c =? x.

(** [\s] in a [str] pattern *)
Definition whitespace (c : codepoint) : bool :=
  ((9 <=? c) && (c <=? 13)) || ((0x1C <=? c) && (c <=? 0x20))
  || unicode_space c.

End Re.
Export Re.

(** The characters that end a link: whitespace, the angle brackets, the
    parentheses, the double quote (34) and the single quote (39). *)
Definition url_terminator (c : codepoint) : bool :=
  whitespace c
  || (c =? 60)%N || (c =? 62)%N || (c =? 40)%N || (c =? 41)%N
  || (c =? 34)%N || (c =? 39)%N.

Definition url_char (c : codepoint) : bool := negb (url_terminator c).

(** [URL_RE]: the group [https?://] followed by one or more characters
    that are not terminators, compiled with [re.IGNORECASE]. *)
Definition URL_RE : regex :=
  Seq (Chr (ignorecase 104%N))                 (* h *)
 (Seq (Chr (ignorecase 116%N))                 (* t *)
 (Seq (Chr (ignorecase 116%N))                 (* t *)
 (Seq (Chr (ignorecase 112%N))                 (* p *)
 (Seq (Opt (Chr (ignorecase 115%N)))           (* s? *)
 (Seq (Chr (literal 58%N))                     (* : *)
 (Seq (Chr (literal 47%N))                     (* / *)
 (Seq (Chr (literal 47%N))                     (* / *)
      (Plus url_char)))))))).

(* ================================================================== *)
(** * The application: [app.py] *)

(** ** The world outside the process *)

(** A [requests.Response], as far as the code looks at it. *)
Record response : Type := Response {
  status_code : Z;
  content : bytes;
  json_body : option json      (* [r.json()]; [None]: the body is not JSON *)
}.

(** A row of [whatsapp.deals]. [JNull] and [None] stand for SQL NULL. *)
Record Deal : Type := mkDeal {
  id : Z;
  wa_from : json;
  wa_name : json;
  msg_time : datetime;
  url : pystr;
  url_hash : pystr;
  image_bytes : option bytes;
  image_mime : json;
  created_at : datetime
}.

(** The configuration read from the process environment, and everything the
    handlers reach outside the process.  The oracles are indexed by a
    logical time, the number of outside interactions made so far. *)
Record Env : Type := mkEnv {
  VERIFY_TOKEN : pystr;
  WHATSAPP_TOKEN : pystr;
  GRAPH_API_VERSION : pystr;
  DATABASE_URL : pystr;
  (** [sys.get_int_max_str_digits()] *)
  int_max_str_digits : N;
  (** [repr] of floats, lists and dicts *)
  py_repr : json -> pystr;
  (** [datetime.now(timezone.utc)] *)
  now : nat -> datetime;
  (** [requests.get(url, headers={Authorization: auth}, timeout=t)] *)
  http_get : nat -> json -> pystr -> Z -> result response;
  (** [psycopg.connect(DATABASE_URL)] succeeds *)
  db_connect : nat -> bool;
  (** driver and server accept the parameters of the INSERT, and the commit
      goes through *)
  db_accepts : json -> json -> datetime -> pystr -> pystr -> option bytes
               -> json -> bool;
  (** the server's [now()], the default of [created_at] *)
  db_now : nat -> datetime
}.

(** What changes while the handlers run: the table, its [BIGSERIAL]
    sequence, and the logical time. *)
Record State : Type := mkState {
  deals : list Deal;
  next_id : Z;
  tick : nat
}.

(** ** Computations that may raise and that change the state *)

Definition M (A : Type) : Type := State -> result A * State.

Definition ret {A} (a : A) : M A := fun s => (Ok a, s).

Definition raise {A} (e : exn) : M A := fun s => (Raise e, s).

Definition lift {A} (r : result A) : M A := fun s => (r, s).

Definition bind {A B} (c : M A) (k : A -> M B) : M B :=
  fun s =>
    match c s with
    | (Ok a, s') => k a s'
    | (Raise e, s') => (Raise e, s')
    end.

Notation "x <- c ;; k" := (bind c (fun x => k))
  (at level 61, c at next level, right associativity).
Notation "' pat <- c ;; k" := (bind c (fun x => match x with pat => k end))
  (at level 61, pat pattern, c at next level, right associativity).

(** [for a in l: body(a)] *)
Fixpoint for_each {A} (l : list A) (body : A -> M unit) : M unit :=
  match l with
  | [] => ret tt
  | a :: l' => _ <- body a ;; for_each l' body
  end.

(** One interaction with the outside: its answer at the current time. *)
Definition ask {A} (oracle : nat -> A) : M A :=
  fun s => (Ok (oracle (tick s)),
            mkState (deals s) (next_id s) (S (tick s))).

Definition is_empty (s : pystr) : bool :=
  match s with [] => true | _ => false end.

Section Handlers.

Variable w : Env.

(** *** DB *)

Definition db_conn : M unit :=
  if is_empty (DATABASE_URL w) then raise RuntimeError
  else
    up <- ask (db_connect w) ;;
    if up then ret tt else raise DatabaseError.

Definition sha256 (s : pystr) : result pystr :=
  match encode_utf8 s with
  | Some data => Ok (Hashlib.hexdigest data)
  | None => Raise UnicodeEncodeError
  end.

(** The f-string hashed by [save_deal]. *)
Definition fingerprint_input (wa_from wa_name : json) (msg_time : datetime)
           (url : pystr) : pystr :=
  py_format (py_repr w) wa_from ++ lit "|"
  ++ py_format (py_repr w) wa_name ++ lit "|"
  ++ str_datetime msg_time ++ lit "|"
  ++ url.

(** [url_hash] *)
Definition fingerprint (wa_from wa_name : json) (msg_time : datetime)
           (url : pystr) : result pystr :=
  sha256 (fingerprint_input wa_from wa_name msg_time url).

Definition has_hash (h : pystr) (rows : list Deal) : bool :=
  existsb (fun d => pystr_eqb (url_hash d) h) rows.

(** [INSERT ... ON CONFLICT (url_hash) DO NOTHING], committed.  The
    sequence advances whether or not the row is kept. *)
Definition insert_deal (wa_from wa_name : json) (msg_time : datetime)
           (url url_hash : pystr) (image_bytes : option bytes)
           (image_mime : json) : M unit :=
  fun s =>
    if db_accepts w wa_from wa_name msg_time url url_hash image_bytes
                  image_mime
    then
      let row := mkDeal (next_id s) wa_from wa_name msg_time url url_hash
                        image_bytes image_mime (db_now w (tick s)) in
      (Ok tt,
       mkState (if has_hash url_hash (deals s) then deals s
                else deals s ++ [row])
               (next_id s + 1) (tick s))
    else (Raise DatabaseError, s).

(** [Binary(image_bytes) if image_bytes else None] *)
Definition binary_or_null (image_bytes : option bytes) : option bytes :=
  match image_bytes with
  | Some (_ :: _) => image_bytes
  | _ => None
  end.

Definition save_deal (wa_from wa_name : json) (msg_time : datetime)
           (url : pystr) (image_bytes : option bytes) (image_mime : json)
  : M unit :=
  url_hash <- lift (fingerprint wa_from wa_name msg_time url) ;;
  _ <- db_conn ;;
  insert_deal wa_from wa_name msg_time url url_hash
    (binary_or_null image_bytes) image_mime.

(** *** Helpers *)

Definition requests_get (url : json) (auth : pystr) (timeout : Z)
  : M response :=
  r <- ask (fun t => http_get w t url auth timeout) ;;
  lift r.

Definition raise_for_status (r : response) : M unit :=
  if (400 <=? status_code r)%Z && (status_code r <? 600)%Z
  then raise HTTPError else ret tt.

Definition response_json (r : response) : M json :=
  match json_body r with
  | Some j => ret j
  | None => raise JSONDecodeError
  end.

Definition download_media (media_id : json) : M (bytes * json) :=
  if is_empty (WHATSAPP_TOKEN w) then raise RuntimeError
  else
    let auth := lit "Bearer " ++ WHATSAPP_TOKEN w in
    meta <- requests_get
              (JStr (lit "https://graph.facebook.com/"
                     ++ GRAPH_API_VERSION w ++ lit "/"
                     ++ py_format (py_repr w) media_id))
              auth 25 ;;
    _ <- raise_for_status meta ;;
    j <- response_json meta ;;
    media_url <- lift (py_get j (lit "url") JNull) ;;
    mime <- lift (py_get j (lit "mime_type")
                    (JStr (lit "application/octet-stream"))) ;;
    if negb (py_truthy media_url) then raise RuntimeError
    else
      r <- requests_get media_url auth 40 ;;
      _ <- raise_for_status r ;;
      ret (content r, mime).

(** *** Routes *)

(** [request.args.get(key)]: the first value given for [key]. *)
Fixpoint args_get (args : list (pystr * pystr)) (key : pystr)
  : option pystr :=
  match args with
  | [] => None
  | (k, v) :: rest => if pystr_eqb k key then Some v else args_get rest key
  end.

Definition opt_eqb (x : option pystr) (s : pystr) : bool :=
  match x with
  | Some t => pystr_eqb t s
  | None => false
  end.

(** [GET /webhook] *)
Definition webhook_verify (args : list (pystr * pystr)) : pystr * Z :=
  let mode := args_get args (lit "hub.mode") in
  let token := args_get args (lit "hub.verify_token") in
  let challenge := args_get args (lit "hub.challenge") in
  if opt_eqb mode (lit "subscribe") && opt_eqb token (VERIFY_TOKEN w)
  then (match challenge with
        | Some (c :: r) => c :: r
        | _ => []                     (* challenge or the empty text *)
        end, 200%Z)
  else (lit "forbidden", 403%Z).

(** [URL_RE.findall(x)]; anything but a [str] is a [TypeError]. *)
Definition URL_RE_findall (x : json) : result (list pystr) :=
  match x with
  | JStr s => Ok (findall URL_RE s)
  | _ => Raise TypeError
  end.

(** [msg_time], from [ts = m.get("timestamp")]. *)
Definition resolve_msg_time (ts : json) : M datetime :=
  if py_truthy ts then
    n <- lift (py_int (int_max_str_digits w) ts) ;;
    lift (fromtimestamp n)
  else ask (now w).

(** [text], [image_bytes], [image_mime] of a message of type [mtype]. *)
Definition message_content (m mtype : json)
  : M (json * option bytes * json) :=
  if py_eq_str mtype (lit "text") then
    t <- lift (py_get m (lit "text") JNull) ;;
    body <- lift (py_get (py_or t (JObj [])) (lit "body") JNull) ;;
    ret (py_or body (JStr []), None, JNull)
  else if py_eq_str mtype (lit "image") then
    i <- lift (py_get m (lit "image") JNull) ;;
    let img := py_or i (JObj []) in
    caption <- lift (py_get img (lit "caption") JNull) ;;
    let text := py_or caption (JStr []) in
    media_id <- lift (py_get img (lit "id") JNull) ;;
    if py_truthy media_id then
      '(data, mime) <- download_media media_id ;;
      ret (text, Some data, mime)
    else ret (text, None, JNull)
  else ret (JStr [], None, JNull).

(** The body of [for m in messages]. *)
Definition process_message (wa_name m : json) : M unit :=
  wa_from <- lift (py_get m (lit "from") JNull) ;;
  ts <- lift (py_get m (lit "timestamp") JNull) ;;
  msg_time <- resolve_msg_time ts ;;
  mtype <- lift (py_get m (lit "type") JNull) ;;
  '(text, image_bytes, image_mime) <- message_content m mtype ;;
  urls <- lift (URL_RE_findall (py_or text (JStr []))) ;;
  for_each urls (fun url =>
    save_deal wa_from wa_name msg_time url image_bytes image_mime).

(** [wa_name], from the first contact of the block. *)
Definition resolve_wa_name (contacts : json) : M json :=
  if py_truthy contacts then
    c0 <- lift (py_index0 contacts) ;;
    profile <- lift (py_get c0 (lit "profile") JNull) ;;
    lift (py_get (py_or profile (JObj [])) (lit "name") JNull)
  else ret JNull.

(** The body of [for ch in entry.get("changes", [])]. *)
Definition process_change (ch : json) : M unit :=
  v <- lift (py_get ch (lit "value") (JObj [])) ;;
  let value := py_or v (JObj []) in
  ms <- lift (py_get value (lit "messages") (JArr [])) ;;
  let messages := py_or ms (JArr []) in
  cs <- lift (py_get value (lit "contacts") (JArr [])) ;;
  let contacts := py_or cs (JArr []) in
  wa_name <- resolve_wa_name contacts ;;
  items <- lift (py_iter messages) ;;
  for_each items (process_message wa_name).

(** The body of [for entry in entries]. *)
Definition process_entry (entry : json) : M unit :=
  changes <- lift (py_get entry (lit "changes") (JArr [])) ;;
  items <- lift (py_iter changes) ;;
  for_each items process_change.

(** The [try] block of [webhook_receive]. *)
Definition process_payload (payload : json) : M unit :=
  entries <- lift (py_get payload (lit "entry") (JArr [])) ;;
  items <- lift (py_iter entries) ;;
  for_each items process_entry.

(** [POST /webhook].  [parsed] is [request.get_json(force=True,
    silent=True)]: [None] when the body is not JSON.  Whatever the [try]
    block raises is caught (every [exn] is an [Exception]) and printed. *)
Definition webhook_receive (parsed : option json)
  : State -> (pystr * Z) * State :=
  fun s =>
    let payload :=
      py_or (match parsed with Some j => j | None => JNull end) (JObj []) in
    match process_payload payload s with
    | (Ok _, s') => ((lit "ok", 200%Z), s')
    | (Raise _, s') => ((lit "ok", 200%Z), s')
    end.

End Handlers.

(* ================================================================== *)
(** * Payloads and a test environment *)

Definition text_message (sender ts body : pystr) : json :=
  JObj [(lit "from", JStr sender); (lit "timestamp", JStr ts);
        (lit "type", JStr (lit "text"));
        (lit "text", JObj [(lit "body", JStr body)])].

Definition image_message (sender ts caption media_id : pystr) : json :=
  JObj [(lit "from", JStr sender); (lit "timestamp", JStr ts);
        (lit "type", JStr (lit "image"));
        (lit "image", JObj [(lit "caption", JStr caption);
                            (lit "id", JStr media_id)])].

(** A change with its [contacts] and [messages], an entry with its
    changes, a payload with its entries. *)
Definition value_change (contacts : json) (messages : list json) : json :=
  JObj [(lit "value",
         JObj [(lit "contacts", contacts); (lit "messages", JArr messages)])].

Definition entry_with (changes : list json) : json :=
  JObj [(lit "changes", JArr changes)].

Definition payload_with (entries : list json) : json :=
  JObj [(lit "entry", JArr entries)].

(** A delivery of one entry with one change. *)
Definition delivery (contacts : json) (messages : list json) : json :=
  payload_with [entry_with [value_change contacts messages]].

Definition contact (name : pystr) : json :=
  JArr [JObj [(lit "profile", JObj [(lit "name", JStr name)])]].

(** The media API of the test environment: [media-1] is a three-byte JPEG,
    [media-empty] has an empty body, anything else is not found. *)
Definition test_http (t : nat) (url : json) (auth : pystr) (timeout : Z)
  : result response :=
  let meta (u : pystr) :=
    Ok (Response 200 []
          (Some (JObj [(lit "url", JStr u);
                       (lit "mime_type", JStr (lit "image/jpeg"))]))) in
  if py_eq_str url (lit "https://graph.facebook.com/v20.0/media-1")
  then meta (lit "https://cdn.example/media-1")
  else if py_eq_str url (lit "https://graph.facebook.com/v20.0/media-empty")
  then meta (lit "https://cdn.example/media-empty")
  else if py_eq_str url (lit "https://cdn.example/media-1")
  then Ok (Response 200 [255; 216; 255]%Z None)
  else if py_eq_str url (lit "https://cdn.example/media-empty")
  then Ok (Response 200 [] None)
  else Ok (Response 404 [] None).

(** A clock that advances by one microsecond at each reading. *)
Definition test_clock (t : nat) : datetime :=
  DT 2024 1 1 12 0 0 (1 + Z.of_nat t).

Definition test_env : Env :=
  mkEnv (lit "change-me") (lit "token") (lit "v20.0") (lit "postgresql://db")
        4300 (fun _ => lit "?") test_clock test_http (fun _ => true)
        (fun _ _ _ _ _ _ _ => true) test_clock.

Definition empty_state : State := mkState [] 1 0.

(** The table after a delivery. *)
Definition deals_after (w : Env) (payload : json) (s : State) : list Deal :=
  deals (snd (webhook_receive w (Some payload) s)).

(** A lowercase hexadecimal digit: [0-9a-f]. *)
Definition is_hex_digit (c : codepoint) : Prop :=
  (48 <= c <= 57)%N \/ (97 <= c <= 102)%N.

(* ================================================================== *)
(** * The link extractor, as the specification words it *)

(** [s] starts with characters of the classes [ps], in order. *)
Fixpoint starts_with (ps : list (codepoint -> bool)) (s : pystr) : bool :=
  match ps, s with
  | [], _ => true
  | p :: ps', c :: s' => p c && starts_with ps' s'
  | _ :: _, [] => false
  end.

Definition letters_http : list (codepoint -> bool) :=
  [ignorecase 104%N; ignorecase 116%N; ignorecase 116%N; ignorecase 112%N].

Definition colon_slashes : list (codepoint -> bool) :=
  [literal 58%N; literal 47%N; literal 47%N].

(** [http://] and [https://], in any letter case. *)
Definition scheme_http : list (codepoint -> bool) :=
  letters_http ++ colon_slashes.
Definition scheme_https : list (codepoint -> bool) :=
  letters_http ++ [ignorecase 115%N] ++ colon_slashes.

(** A scheme followed by at least one more character. *)
Definition link_start (s : pystr) : bool :=
  (starts_with scheme_https s && (8 <? length s)%nat)
  || (starts_with scheme_http s && (7 <? length s)%nat).

(** The pieces of a text between terminators. *)
Fixpoint split_tokens (s : pystr) : list pystr :=
  match s with
  | [] => [[]]
  | c :: s' =>
      if url_terminator c then [] :: split_tokens s'
      else
        match split_tokens s' with
        | tok :: rest => (c :: tok) :: rest
        | [] => [[c]]
        end
  end.

(** The link of a piece: from its first scheme to its end. *)
Fixpoint first_link (tok : pystr) : option pystr :=
  match tok with
  | [] => None
  | _ :: tok' => if link_start tok then Some tok else first_link tok'
  end.

Definition links_of_token (tok : pystr) : list pystr :=
  match first_link tok with
  | Some l => [l]
  | None => []
  end.

(** The links of a text: those of its pieces, in order. *)
Definition extract_links (text : pystr) : list pystr :=
  flat_map links_of_token (split_tokens text).

(** A link: a scheme, at least one more character, no terminator. *)
Definition link_shaped (u : pystr) : Prop :=
  link_start u = true /\ Forall (fun c => url_terminator c = false) u.

(** [ps] in sequence, then [r]. *)
Definition chars (ps : list (codepoint -> bool)) (r : regex) : regex :=
  fold_right (fun p r' => Seq (Chr p) r') r ps.

Fixpoint drop_while (p : codepoint -> bool) (s : pystr) : pystr :=
  match s with
  | c :: s' => if p c then drop_while p s' else s
  | [] => []
  end.

(** What [[class]+] leaves of [b]. *)
Definition url_body (b : pystr) : option pystr :=
  match b with
  | c :: r => if url_char c then Some (drop_while url_char r) else None
  | [] => None
  end.

(** A text is empty or starts with a terminator. *)
Definition stops (rest : pystr) : Prop :=
  match rest with
  | [] => True
  | c :: _ => url_terminator c = true
  end.

(** The characters of a scheme are not terminators. *)
Definition scheme_class (p : codepoint -> bool) : Prop :=
  forall c, p c = true -> url_terminator c = false.

(** [tok] put in front of the first piece. *)
Definition prepend (tok : pystr) (toks : list pystr) : list pystr :=
  match toks with
  | t :: ts => (tok ++ t) :: ts
  | [] => [tok]
  end.

(* ================================================================== *)
(** * Notions used by the properties of the fingerprint *)

(** The delimiter of the fingerprint does not occur in [s]. *)
Definition no_pipe (s : pystr) : Prop := Forall (fun c => c <> 124%N) s.

(** Seconds since the epoch of a UTC [datetime]: the inverse of
    [fromtimestamp]. *)
Definition timestamp_of (dt : datetime) : Z :=
  ((ymd2ord (year dt) (month dt) (day dt) - epoch_ordinal) * 86400
   + hour dt * 3600 + minute dt * 60 + second dt)%Z.

(** Day [n] of a year: [month_day] gives a month and a day that
    [days_before] takes back to it. *)
Definition year_day_ok (leapyear : bool) (n : Z) : bool :=
  let '(m, d) := month_day n leapyear in
  ((1 <=? m) && (m <=? 12) && (1 <=? d) && (d <=? 31)
   && (days_before m leapyear + d =? n + 1))%Z.

(** The days [n], [n+1], ... ([k] of them) of a year pass [year_day_ok]. *)
Fixpoint year_days_ok (leapyear : bool) (k : nat) (n : Z) : bool :=
  match k with
  | O => true
  | S k' => year_day_ok leapyear n && year_days_ok leapyear k' (n + 1)%Z
  end.

(* ================================================================== *)
(** * Notions used by the properties of the handlers *)

(** A computation that leaves the table as it is. *)
Definition keeps_deals {A} (c : M A) : Prop :=
  forall s, deals (snd (c s)) = deals s.

(** The computation raises before it changes the table. *)
Definition raises_early {A} (c : M A) : Prop :=
  forall s, exists e s1, c s = (Raise e, s1) /\ deals s1 = deals s.

(** [c] raises, leaving the table as [c'] leaves it. *)
Definition cut_to {A B} (c : M A) (c' : M B) : Prop :=
  forall s, (exists e s1, c s = (Raise e, s1))
            /\ deals (snd (c s)) = deals (snd (c' s)).

(** The two media columns of a row are both NULL or both set. *)
Definition paired (d : Deal) : Prop :=
  image_bytes d = None <-> image_mime d = JNull.

(** Every media fetch that succeeds returns content that is not empty and
    a MIME type that is not null. *)
Definition sound_media (w : Env) : Prop :=
  forall mid s data mime s',
    download_media w mid s = (Ok (data, mime), s') ->
    data <> [] /\ mime <> JNull.

(** A computation that keeps a property of the table. *)
Definition preserves (I : list Deal -> Prop) {A} (c : M A) : Prop :=
  forall s, I (deals s) -> I (deals (snd (c s))).

(** A media API that serves the same three-byte JPEG for every media
    id. *)
Definition jpeg_http (t : nat) (url : json) (auth : pystr) (timeout : Z)
  : result response :=
  if (timeout =? 25)%Z then
    Ok (Response 200 []
          (Some (JObj [(lit "url", JStr (lit "https://cdn.example/photo"));
                       (lit "mime_type", JStr (lit "image/jpeg"))])))
  else Ok (Response 200 [255; 216; 255]%Z None).

Definition jpeg_env : Env :=
  mkEnv (lit "change-me") (lit "token") (lit "v20.0") (lit "postgresql://db")
        4300 (fun _ => lit "?") test_clock jpeg_http (fun _ => true)
        (fun _ _ _ _ _ _ _ => true) test_clock.

(** The media API and the database connection answer the same way at
    every time. *)
Definition stable_env (w : Env) : Prop :=
  (forall t t' u a timeout,
      http_get w t u a timeout = http_get w t' u a timeout)
  /\ (forall t t', db_connect w t = db_connect w t').

(** Every fingerprint of [rows] is in [rows']. *)
Definition covered (rows rows' : list Deal) : Prop :=
  forall h, has_hash h rows = true -> has_hash h rows' = true.

(** Run again in a state whose table already holds every fingerprint the
    first run left, the computation gives the same result and adds no
    row. *)
Definition absorbing {A} (c : M A) : Prop :=
  forall s,
    covered (deals s) (deals (snd (c s)))
    /\ forall s', covered (deals (snd (c s))) (deals s') ->
                  fst (c s') = fst (c s) /\ deals (snd (c s')) = deals s'.

(** The message carries a truthy [timestamp]. *)
Definition has_timestamp (m : json) : Prop :=
  forall ts, py_get m (lit "timestamp") JNull = Ok ts -> py_truthy ts = true.

(** The items a loop over [x] visits, none when [x] is not iterable. *)
Definition iter_items (x : json) : list json :=
  match py_iter x with
  | Ok l => l
  | Raise _ => []
  end.

(** The messages the handler can reach in a change, an entry, a
    payload. *)
Definition messages_of_change (ch : json) : list json :=
  match py_get ch (lit "value") (JObj []) with
  | Ok v =>
      match py_get (py_or v (JObj [])) (lit "messages") (JArr []) with
      | Ok ms => iter_items (py_or ms (JArr []))
      | Raise _ => []
      end
  | Raise _ => []
  end.

Definition messages_of_entry (entry : json) : list json :=
  match py_get entry (lit "changes") (JArr []) with
  | Ok changes => flat_map messages_of_change (iter_items changes)
  | Raise _ => []
  end.

Definition payload_messages (payload : json) : list json :=
  match py_get payload (lit "entry") (JArr []) with
  | Ok entries => flat_map messages_of_entry (iter_items entries)
  | Raise _ => []
  end.

(** Every message of the payload carries a truthy timestamp. *)
Definition timestamped (payload : json) : Prop :=
  Forall has_timestamp (payload_messages payload).

(** The state after [n] deliveries of the same payload. *)
Fixpoint replay (w : Env) (payload : json) (n : nat) (s : State) : State :=
  match n with
  | O => s
  | S n' => replay w payload n' (snd (webhook_receive w (Some payload) s))
  end.

(** A delivery whose only message has no timestamp. *)
Definition untimed_delivery : json :=
  delivery (contact (lit "Ana"))
    [JObj [(lit "from", JStr (lit "5511")); (lit "type", JStr (lit "text"));
           (lit "text",
            JObj [(lit "body", JStr (lit "https://a.example/1"))])]].

(* ================================================================== *)
(** * The gallery: the helpers and the read routes of [app.py] *)

(** ** The [str] methods the helpers use *)

Definition ascii_lower (c : codepoint) : codepoint :=
  if (65 <=? c)%N && (c <=? 90)%N then (c + 32)%N else c.

(** [s.lower()], from the characters [before] the rest [s].  An ASCII
    character gives one character, its lowercase; U+0130 gives [i] and
    U+0307; U+212A, the Kelvin sign, gives [k].  These are the only
    characters outside ASCII whose lowercase has an ASCII character.  The
    lowercase of every other character is read from the Unicode tables of
    the interpreter, [special]: it may depend on the characters around (the
    final sigma). *)
Fixpoint lower_from (special : pystr -> codepoint -> pystr -> pystr)
         (before s : pystr) : pystr :=
  match s with
  | [] => []
  | c :: r =>
      (if (c <? 128)%N then [ascii_lower c]
       else if (c =? 304)%N then [105; 775]%N
       else if (c =? 8490)%N then [107%N]
       else special before c r)
      ++ lower_from special (before ++ [c]) r
  end.

Definition str_lower (special : pystr -> codepoint -> pystr -> pystr)
           (s : pystr) : pystr :=
  lower_from special [] s.

(** [s.startswith(p)] *)
Fixpoint str_startswith (p s : pystr) : bool :=
  match p, s with
  | [], _ => true
  | a :: p', b :: s' => (a =? b)%N && str_startswith p' s'
  | _ :: _, [] => false
  end.

(** [needle in hay] *)
Fixpoint str_contains (needle hay : pystr) : bool :=
  str_startswith needle hay
  || match hay with
     | [] => false
     | _ :: hay' => str_contains needle hay'
     end.

(** [s.split(sep)] for a separator of one character. *)
Fixpoint str_split (sep : codepoint) (s : pystr) : list pystr :=
  match s with
  | [] => [[]]
  | c :: s' =>
      if (c =? sep)%N then [] :: str_split sep s'
      else
        match str_split sep s' with
        | part :: rest => (c :: part) :: rest
        | [] => [[c]]
        end
  end.

(** ** [datetime] arithmetic and formatting *)

(** [timedelta(days=n)] *)
Definition timedelta_days (n : Z) : result Z :=
  if (Z.abs n <=? 999999999)%Z then Ok n else Raise OverflowError.

(** [dt - timedelta(days=n)]: the same time of day, [n] days before. *)
Definition minus_days (dt : datetime) (n : Z) : result datetime :=
  let o := (ymd2ord (year dt) (month dt) (day dt) - n)%Z in
  if (1 <=? o)%Z && (o <=? max_ordinal)%Z then
    let '(y, m, d) := ord2ymd o in
    Ok (DT y m d (hour dt) (minute dt) (second dt) (microsecond dt))
  else Raise OverflowError.

(** [dt.strftime] with the format [%d/%m %H:%M] *)
Definition strftime_day_time (dt : datetime) : pystr :=
  digits 2 (day dt) ++ lit "/" ++ digits 2 (month dt) ++ lit " "
  ++ digits 2 (hour dt) ++ lit ":" ++ digits 2 (minute dt).

(** The instant of a UTC [datetime], in microseconds since the epoch: the
    order of [TIMESTAMPTZ] values. *)
Definition instant (dt : datetime) : Z :=
  (timestamp_of dt * 1000000 + microsecond dt)%Z.

(** ** The rest of the configuration *)

Record GalleryEnv : Type := mkGalleryEnv {
  APP_TITLE : pystr;
  DAYS_TO_SHOW : Z;
  MAX_ITEMS : Z;
  (** the lowercase of the characters outside ASCII *)
  unicode_lower : pystr -> codepoint -> pystr -> pystr;
  (** the server answers the [SELECT] *)
  db_answers : nat -> bool
}.

(** An element of [items], and the context [render_template_string]
    receives.  The template itself is not part of the model. *)
Record item : Type := mkItem {
  item_id : Z;
  item_url : pystr;
  item_created_at : pystr;
  item_source : pystr;
  item_card_title : pystr
}.

Record page : Type := mkPage {
  page_title : pystr;
  page_items : list item;
  page_count : nat;
  page_days : Z
}.

(** A [flask.Response]: status, body and [mimetype] when one is given. *)
Record flask_response : Type := FlaskResponse {
  resp_status : Z;
  resp_data : bytes;
  resp_mimetype : option json
}.

(** ** The query of the gallery *)

(** [image_bytes IS NOT NULL AND url IS NOT NULL AND created_at >= since].
    The [url] of a row of the model is never NULL. *)
Definition in_gallery (since : datetime) (d : Deal) : bool :=
  match image_bytes d with Some _ => true | None => false end
  && (instant since <=? instant (created_at d))%Z.

(** [ORDER BY created_at DESC].  Rows of the same instant stay in the order
    of the table; the server may return them in any order. *)
Fixpoint insert_desc (d : Deal) (l : list Deal) : list Deal :=
  match l with
  | [] => [d]
  | x :: l' =>
      if (instant (created_at x) <=? instant (created_at d))%Z then d :: l
      else x :: insert_desc d l'
  end.

Definition sort_desc (l : list Deal) : list Deal :=
  fold_right insert_desc [] l.

(** The [SELECT] of [marketplace]: [LIMIT] takes a [bigint] that is not
    negative. *)
Definition select_gallery (since : datetime) (limit : Z) (rows : list Deal)
  : result (list Deal) :=
  if (0 <=? limit)%Z && (limit <? 2 ^ 63)%Z then
    Ok (firstn (Z.to_nat limit) (sort_desc (filter (in_gallery since) rows)))
  else Raise DatabaseError.

(** A [SELECT]: the rows of the table, read without changing it, when the
    server answers. *)
Definition read_rows {A} (answers : nat -> bool)
           (q : list Deal -> result A) : M A :=
  ok <- ask answers ;;
  if ok then fun s => (q (deals s), s) else raise DatabaseError.

Section Gallery.

Variable g : GalleryEnv.
Variable w : Env.

(** *** Helpers *)

Definition infer_source (url : option pystr) : pystr :=
  let u := str_lower (unicode_lower g)
                     (match url with Some x => x | None => [] end) in
  if str_contains (lit "amazon.") u then lit "Amazon"
  else if str_contains (lit "mercadolivre") u
          || str_contains (lit "meli.") u then lit "Mercado Livre"
  else if str_contains (lit "shopee.") u then lit "Shopee"
  else lit "Link".

(** [url.split('/')[2]] raises for [None] and for fewer than three parts;
    the [except] gives the plain title. *)
Definition make_card_title (url : option pystr) : pystr :=
  match url with
  | Some u =>
      match nth_error (str_split 47%N u) 2 with
      | Some host => lit "Oferta em " ++ host
      | None => lit "Oferta"
      end
  | None => lit "Oferta"
  end.

(** *** Routes *)

(** The dict appended to [items] for a row. *)
Definition item_of (d : Deal) : item :=
  mkItem (id d) (url d) (strftime_day_time (created_at d))
         (infer_source (Some (url d))) (make_card_title (Some (url d))).

(** [GET /]: what is handed to the template.  An exception leaves the
    handler. *)
Definition marketplace : M page :=
  t <- ask (now w) ;;
  days <- lift (timedelta_days (DAYS_TO_SHOW g)) ;;
  since <- lift (minus_days t days) ;;
  _ <- db_conn w ;;
  rows <- read_rows (db_answers g) (select_gallery since (MAX_ITEMS g)) ;;
  let items := map item_of rows in
  ret (mkPage (APP_TITLE g) items (length items) (DAYS_TO_SHOW g)).

(** [row[1]] or else [application/octet-stream].  A MIME type that was not a
    string when it was saved stands for the text the server made of it,
    which is not empty. *)
Definition mime_or_default (image_mime : json) : json :=
  match image_mime with
  | JNull | JStr [] => JStr (lit "application/octet-stream")
  | v => v
  end.

(** [GET /img/<int:item_id>] *)
Definition img (item_id : Z) : M flask_response :=
  _ <- db_conn w ;;
  read_rows (db_answers g) (fun rows =>
    match find (fun d => (id d =? item_id)%Z) rows with
    | Some d =>
        match image_bytes d with
        | Some data =>
            Ok (FlaskResponse 200 data (Some (mime_or_default (image_mime d))))
        | None => Ok (FlaskResponse 404 [] None)
        end
    | None => Ok (FlaskResponse 404 [] None)
    end).

End Gallery.

(* ================================================================== *)
(** * Notions used by the properties of the table *)

(** What a delivery does to the state, one step at a time: an interaction
    with the outside, or the [INSERT] of [save_deal] for a link and its
    fingerprint, which needs a [DATABASE_URL]. *)
Inductive step (w : Env) : State -> State -> Prop :=
| step_ask : forall s,
    step w s (mkState (deals s) (next_id s) (S (tick s)))
| step_insert : forall s f n t u h b m,
    is_empty (DATABASE_URL w) = false ->
    link_shaped u ->
    fingerprint w f n t u = Ok h ->
    step w s (snd (insert_deal w f n t u h (binary_or_null b) m s)).

Inductive reaches (w : Env) : State -> State -> Prop :=
| reaches_refl : forall s, reaches w s s
| reaches_step : forall s1 s2 s3,
    reaches w s1 s2 -> step w s2 s3 -> reaches w s1 s3.

(** A computation that moves the state by such steps only. *)
Definition walks (w : Env) {A} (c : M A) : Prop :=
  forall s, reaches w s (snd (c s)).

(** The fingerprints of the table are pairwise distinct: [UNIQUE]. *)
Definition unique_hashes (rows : list Deal) : Prop :=
  NoDup (map url_hash rows).

(** The ids of the table are pairwise distinct and the sequence is ahead of
    them: [BIGSERIAL PRIMARY KEY]. *)
Definition fresh_ids (s : State) : Prop :=
  NoDup (map id (deals s)) /\ Forall (fun d => (id d < next_id s)%Z) (deals s).

(** The fingerprint of a row is the one of its own columns. *)
Definition hash_of_columns (w : Env) (d : Deal) : Prop :=
  fingerprint w (wa_from d) (wa_name d) (msg_time d) (url d)
  = Ok (url_hash d).

(** [a] is [b] with some elements left out. *)
Inductive sublist {A} : list A -> list A -> Prop :=
| sublist_nil : sublist [] []
| sublist_skip : forall x a b, sublist a b -> sublist a (x :: b)
| sublist_keep : forall x a b, sublist a b -> sublist (x :: a) (x :: b).

(** The host of a link: what stands between the scheme and the next
    slash. *)
Fixpoint up_to_slash (s : pystr) : pystr :=
  match s with
  | [] => []
  | c :: r => if (c =? 47)%N then [] else c :: up_to_slash r
  end.

Definition after_scheme (u : pystr) : pystr :=
  if starts_with scheme_https u then skipn 8 u else skipn 7 u.

(** The number of slashes of a text. *)
Definition count_slashes (s : pystr) : nat :=
  length (filter (fun c => (c =? 47)%N) s).

(** Only ASCII characters. *)
Definition is_ascii (s : pystr) : Prop := Forall (fun c => (c < 128)%N) s.

(** A gallery configuration, and a [unicode_lower] that leaves every
    character as it is. *)
Definition test_gallery : GalleryEnv :=
  mkGalleryEnv (lit "DailyDeals") 7 200 (fun _ c _ => [c]) (fun _ => true).

(** The columns a row gets from the message it was saved for. *)
Definition of_message (f n : json) (t : datetime) (b : option bytes)
           (m : json) (d : Deal) : Prop :=
  wa_from d = f /\ wa_name d = n /\ msg_time d = t
  /\ image_bytes d = b /\ image_mime d = m.

(** The body is not JSON, is not an object, or has no [entry] key. *)
Definition no_entries (parsed : option json) : Prop :=
  match parsed with
  | Some (JObj pairs) => dict_lookup pairs (lit "entry") = None
  | _ => True
  end.

Definition is_object (x : json) : bool :=
  match x with JObj _ => true | _ => false end.

(** A computation that only appends rows, each with the property [P]. *)
Definition appends (P : Deal -> Prop) {A} (c : M A) : Prop :=
  forall s, exists added,
    deals (snd (c s)) = deals s ++ added /\ Forall P added.

(** The keyword [kw] occurs in [u], its letters in either ASCII case. *)
Definition mentions (kw u : pystr) : Prop :=
  exists a k b, u = a ++ k ++ b /\ is_ascii k /\ map ascii_lower k = kw.

(** Newest first: no row is older than a row after it. *)
Definition newer_or_same (a b : Deal) : Prop :=
  (instant (created_at b) <= instant (created_at a))%Z.

Definition newest_first (rows : list Deal) : Prop :=
  StronglySorted newer_or_same rows.

(** Microseconds in a day. *)
Definition day_us : Z := 86400000000.

(** A table of three rows, with and without image. *)
Definition gallery_row (i : Z) (u : pystr) (image : option bytes) (minute : Z)
  : Deal :=
  mkDeal i JNull JNull (DT 2024 1 1 11 minute 0 0) u [] image JNull
         (DT 2024 1 1 11 minute 0 0).

Definition gallery_state : State :=
  mkState [gallery_row 1 (lit "https://www.amazon.com.br/a") (Some [1%Z]) 10;
           gallery_row 2 (lit "https://loja.com/b") None 20;
           gallery_row 3 (lit "https://shopee.com.br/c") (Some [2%Z]) 30]
          4 0.

(* ================================================================== *)
(** * Properties *)

(** ** Generic facts *)

Lemma pystr_eqb_eq (a b : pystr) : pystr_eqb a b = true <-> a = b.
Proof.
  unfold pystr_eqb. destruct (list_eq_dec N.eq_dec a b); split; congruence.
Qed.

Lemma pystr_eqb_refl (a : pystr) : pystr_eqb a a = true.
Proof. now apply pystr_eqb_eq. Qed.

(** ** The verification endpoint *)

(** C9. [GET /webhook]: when [hub.mode] is [subscribe] and
    [hub.verify_token] is the configured secret, the answer is the value of
    [hub.challenge] (the empty text when it is absent) with status 200;
    in every other case the status is 403. *)
Theorem webhook_verify_challenge_or_forbidden :
  forall (w : Env) (args : list (pystr * pystr)),
    let mode := args_get args (lit "hub.mode") in
    let token := args_get args (lit "hub.verify_token") in
    let challenge := args_get args (lit "hub.challenge") in
    (mode = Some (lit "subscribe") /\ token = Some (VERIFY_TOKEN w) ->
     webhook_verify w args
     = (match challenge with Some c => c | None => [] end, 200%Z))
    /\ (~ (mode = Some (lit "subscribe") /\ token = Some (VERIFY_TOKEN w)) ->
        snd (webhook_verify w args) = 403%Z).
Proof.
  intros w args mode token challenge. unfold webhook_verify.
  fold mode token challenge. split.
  - intros [Hm Ht]. rewrite Hm, Ht. cbn [opt_eqb].
    rewrite !pystr_eqb_refl. cbn [andb].
    destruct challenge as [[|c r]|]; reflexivity.
  - intros Hn.
    destruct (opt_eqb mode (lit "subscribe")) eqn:Em;
      destruct (opt_eqb token (VERIFY_TOKEN w)) eqn:Et; cbn [andb snd];
      try reflexivity.
    exfalso. apply Hn.
    destruct mode as [m|]; destruct token as [t|]; cbn in Em, Et;
      try discriminate.
    apply pystr_eqb_eq in Em, Et. now subst.
Qed.

Lemma webhook_verify_challenge_or_forbidden_witness :
  webhook_verify test_env
    [(lit "hub.mode", lit "subscribe");
     (lit "hub.verify_token", lit "change-me");
     (lit "hub.challenge", lit "1158201444")]
  = (lit "1158201444", 200%Z)
  /\ snd (webhook_verify test_env
            [(lit "hub.mode", lit "subscribe");
             (lit "hub.verify_token", lit "guess")]) = 403%Z.
Proof.
  split.
  - apply (proj1 (webhook_verify_challenge_or_forbidden test_env
             [(lit "hub.mode", lit "subscribe");
              (lit "hub.verify_token", lit "change-me");
              (lit "hub.challenge", lit "1158201444")])).
    split; reflexivity.
  - apply (proj2 (webhook_verify_challenge_or_forbidden test_env
             [(lit "hub.mode", lit "subscribe");
              (lit "hub.verify_token", lit "guess")])).
    intros [_ H]. vm_compute in H. discriminate.
Defined.

(** ** The fingerprint *)

Lemma hex_digit_is_hex (d : Z) : (0 <= d < 16)%Z -> is_hex_digit (Hashlib.hex_digit d).
Proof.
  intros Hd. unfold is_hex_digit, Hashlib.hex_digit.
  destruct (d <? 10)%Z eqn:E.
  - apply Z.ltb_lt in E. left. lia.
  - apply Z.ltb_ge in E. right. lia.
Qed.

Lemma hex8_length (x : Z) : length (Hashlib.hex8 x) = 8%nat.
Proof. reflexivity. Qed.

Lemma hex8_is_hex (x : Z) : Forall is_hex_digit (Hashlib.hex8 x).
Proof.
  unfold Hashlib.hex8. apply Forall_forall. intros c Hc.
  apply in_map_iff in Hc. destruct Hc as [i [<- _]].
  apply hex_digit_is_hex. apply Z.mod_pos_bound. lia.
Qed.

Lemma hexdigest_length (data : bytes) : length (Hashlib.hexdigest data) = 64%nat.
Proof.
  unfold Hashlib.hexdigest. destruct (Hashlib.digest data).
  rewrite !length_app, !hex8_length. reflexivity.
Qed.

Lemma hexdigest_is_hex (data : bytes) :
  Forall is_hex_digit (Hashlib.hexdigest data).
Proof.
  unfold Hashlib.hexdigest. destruct (Hashlib.digest data).
  repeat (apply Forall_app; split); apply hex8_is_hex.
Qed.



(** The digest of the scenario of the specification, as [hashlib] gives
    it. *)
Example fingerprint_of_scenario :
  fingerprint test_env (JStr (lit "5511999990000")) (JStr (lit "Ana"))
    (DT 2023 11 14 22 13 20 0) (lit "https://loja.com/p/1")
  = Ok (lit "fa369415d108f10e50fc43f72533aa46ed081195324ff1a4fe76dd66e60c25ec").
Proof. vm_compute. reflexivity. Qed.

(** ** [save_deal] *)

Lemma save_deal_run (w : Env) (f n : json) (t : datetime) (u : pystr)
      (b : option bytes) (m : json) (s : State) :
  save_deal w f n t u b m s =
  match fingerprint w f n t u with
  | Raise e => (Raise e, s)
  | Ok h =>
      if is_empty (DATABASE_URL w) then (Raise RuntimeError, s)
      else
        let s' := mkState (deals s) (next_id s) (S (tick s)) in
        if db_connect w (tick s)
        then insert_deal w f n t u h (binary_or_null b) m s'
        else (Raise DatabaseError, s')
  end.
Proof.
  unfold save_deal, bind, lift, db_conn.
  destruct (fingerprint w f n t u) as [h|e]; [|reflexivity].
  destruct (is_empty (DATABASE_URL w)); [reflexivity|].
  unfold bind, ask. cbn.
  destruct (db_connect w (tick s)); reflexivity.
Qed.

(** A successful [save_deal] leaves its fingerprint in the table. *)
Lemma save_deal_ok_has_hash (w : Env) f n t u b m s s1 :
  save_deal w f n t u b m s = (Ok tt, s1) ->
  exists h, fingerprint w f n t u = Ok h /\ has_hash h (deals s1) = true.
Proof.
  rewrite save_deal_run.
  destruct (fingerprint w f n t u) as [h|e]; [|discriminate].
  destruct (is_empty (DATABASE_URL w)); [discriminate|].
  cbv zeta. destruct (db_connect w (tick s)); [|discriminate].
  unfold insert_deal.
  destruct (db_accepts w f n t u h (binary_or_null b) m); [|discriminate].
  cbn [deals next_id tick]. intros H. inversion H; subst; clear H.
  exists h. split; [reflexivity|]. cbn [deals].
  destruct (has_hash h (deals s)) eqn:E; [exact E|].
  unfold has_hash. rewrite existsb_app. cbn.
  rewrite pystr_eqb_refl. now rewrite orb_true_r.
Qed.

(** With its fingerprint already in the table, [save_deal] adds nothing. *)
Lemma save_deal_present (w : Env) f n t u b m s h :
  fingerprint w f n t u = Ok h ->
  has_hash h (deals s) = true ->
  deals (snd (save_deal w f n t u b m s)) = deals s.
Proof.
  intros Hf Hh. rewrite save_deal_run, Hf.
  destruct (is_empty (DATABASE_URL w)); [reflexivity|].
  cbv zeta. destruct (db_connect w (tick s)); [|reflexivity].
  unfold insert_deal.
  destruct (db_accepts w f n t u h (binary_or_null b) m); [|reflexivity].
  cbn [snd deals]. now rewrite Hh.
Qed.

Lemma fingerprint_None_sender (w : Env) n t u :
  fingerprint w JNull n t u = fingerprint w (JStr (lit "None")) n t u.
Proof. reflexivity. Qed.

Lemma fingerprint_None_name (w : Env) f t u :
  fingerprint w f JNull t u = fingerprint w f (JStr (lit "None")) t u.
Proof. reflexivity. Qed.



(** ** The acknowledgment *)

(** Whether the [try] block returns or raises, the answer is the same. *)
Lemma webhook_receive_response (w : Env) (parsed : option json) (s : State) :
  fst (webhook_receive w parsed s) = (lit "ok", 200%Z).
Proof.
  unfold webhook_receive.
  destruct (process_payload w _ s) as [[x|e] s']; reflexivity.
Qed.


(** ** The link extractor *)

Lemma URL_RE_chars :
  URL_RE = chars letters_http
             (Seq (Opt (Chr (ignorecase 115%N)))
                  (chars colon_slashes (Plus url_char))).
Proof. reflexivity. Qed.

Lemma match_chars (ps : list (codepoint -> bool)) (r : regex) (s : pystr)
      (k : pystr -> option pystr) :
  match_re (chars ps r) s k
  = if starts_with ps s then match_re r (skipn (length ps) s) k else None.
Proof.
  revert s. induction ps as [|p ps IH]; intros s.
  - reflexivity.
  - destruct s as [|c s']; [reflexivity|].
    cbn [chars fold_right match_re starts_with length skipn].
    destruct (p c); [|reflexivity]. cbn [andb]. apply IH.
Qed.

Lemma match_star_Some (p : codepoint -> bool) (s : pystr) :
  match_star p s Some = Some (drop_while p s).
Proof.
  induction s as [|c s' IH]; [reflexivity|].
  cbn [match_star drop_while]. destruct (p c); [|reflexivity].
  now rewrite IH.
Qed.

Lemma match_plus_Some (s : pystr) :
  match_re (Plus url_char) s Some = url_body s.
Proof.
  destruct s as [|c r]; [reflexivity|]. cbn [match_re url_body].
  destruct (url_char c); [apply match_star_Some|reflexivity].
Qed.

Lemma starts_with_app (ps qs : list (codepoint -> bool)) (s : pystr) :
  starts_with (ps ++ qs) s
  = starts_with ps s && starts_with qs (skipn (length ps) s).
Proof.
  revert s. induction ps as [|p ps IH]; intros s; [reflexivity|].
  destruct s as [|c s']; [reflexivity|].
  cbn [app starts_with length skipn]. rewrite IH. now rewrite andb_assoc.
Qed.

(** The match of [URL_RE] at the start of [s]: the attempt with the
    optional letter first, then the one without it. *)
Lemma match_URL_RE (s : pystr) :
  match_re URL_RE s Some
  = match (if starts_with scheme_https s then url_body (skipn 8 s) else None)
    with
    | Some rest => Some rest
    | None => if starts_with scheme_http s then url_body (skipn 7 s) else None
    end.
Proof.
  rewrite URL_RE_chars, match_chars.
  unfold scheme_https, scheme_http. rewrite !starts_with_app.
  destruct (starts_with letters_http s) eqn:Eh; [|reflexivity].
  cbn [andb]. change (length letters_http) with 4%nat.
  cbn [match_re]. set (s4 := skipn 4 s).
  assert (E8 : skipn 8 s = skipn 4 (skipn 4 s)) by (now rewrite skipn_skipn).
  assert (E7 : skipn 7 s = skipn 3 (skipn 4 s)) by (now rewrite skipn_skipn).
  rewrite E8, E7. fold s4.
  rewrite (match_chars colon_slashes (Plus url_char) s4 Some).
  rewrite match_plus_Some. change (length colon_slashes) with 3%nat.
  destruct s4 as [|c s5]; [reflexivity|].
  cbn [starts_with skipn length].
  destruct (ignorecase 115%N c); [|reflexivity]. cbn [andb].
  rewrite match_chars, match_plus_Some.
  change (length colon_slashes) with 3%nat.
  reflexivity.
Qed.

Lemma url_char_not_terminator (c : codepoint) :
  url_char c = true <-> url_terminator c = false.
Proof. unfold url_char. destruct (url_terminator c); cbn; intuition congruence. Qed.

Lemma ignorecase_letter_class (l : codepoint) :
  In l [104; 116; 112; 115]%N -> scheme_class (ignorecase l).
Proof.
  intros Hl c Hc. unfold ignorecase in Hc.
  cbn in Hl.
  destruct Hl as [<-|[<-|[<-|[<-|[]]]]]; cbn in Hc;
    repeat rewrite ?orb_false_r, ?orb_true_iff, ?andb_true_iff in Hc;
    repeat match goal with
           | H : _ \/ _ |- _ => destruct H
           | H : _ /\ _ |- _ => destruct H
           | H : (_ =? _)%N = true |- _ => apply N.eqb_eq in H; subst
           end;
    try reflexivity; try discriminate.
Qed.

Lemma literal_class (x : codepoint) :
  In x [58; 47]%N -> scheme_class (literal x).
Proof.
  intros Hx c Hc. unfold literal in Hc. apply N.eqb_eq in Hc. subst c.
  cbn in Hx. destruct Hx as [<-|[<-|[]]]; reflexivity.
Qed.

Lemma scheme_https_class : Forall scheme_class scheme_https.
Proof.
  unfold scheme_https, letters_http, colon_slashes. cbn [app].
  repeat constructor;
    (apply ignorecase_letter_class || apply literal_class); cbn; tauto.
Qed.

Lemma scheme_http_class : Forall scheme_class scheme_http.
Proof.
  unfold scheme_http, letters_http, colon_slashes. cbn [app].
  repeat constructor;
    (apply ignorecase_letter_class || apply literal_class); cbn; tauto.
Qed.

Lemma starts_with_stops (ps : list (codepoint -> bool)) (tok rest : pystr) :
  Forall scheme_class ps -> stops rest ->
  starts_with ps (tok ++ rest) = starts_with ps tok.
Proof.
  intros Hps Hrest. revert tok.
  induction Hps as [|p ps Hp Hps IH]; intros tok.
  - now destruct tok.
  - destruct tok as [|c tok'].
    + cbn [app starts_with]. destruct rest as [|c r]; [reflexivity|].
      cbn in Hrest. destruct (p c) eqn:E; [|reflexivity].
      apply Hp in E. congruence.
    + cbn [app starts_with]. now rewrite IH.
Qed.

Lemma starts_with_length (ps : list (codepoint -> bool)) (s : pystr) :
  starts_with ps s = true -> (length ps <= length s)%nat.
Proof.
  revert s. induction ps as [|p ps IH]; intros s H; cbn; [lia|].
  destruct s as [|c s']; [discriminate|]. cbn in H |- *.
  apply andb_true_iff in H. destruct H as [_ H]. apply IH in H. lia.
Qed.

Lemma drop_while_token (tok rest : pystr) :
  Forall (fun c => url_terminator c = false) tok -> stops rest ->
  drop_while url_char (tok ++ rest) = rest.
Proof.
  intros Htok Hrest. induction Htok as [|c tok Hc Htok IH].
  - destruct rest as [|c r]; [reflexivity|]. cbn in Hrest |- *.
    unfold url_char. now rewrite Hrest.
  - cbn [app drop_while]. unfold url_char at 1. now rewrite Hc.
Qed.

Lemma url_body_token (n : nat) (tok rest : pystr) :
  Forall (fun c => url_terminator c = false) tok -> stops rest ->
  (n <= length tok)%nat ->
  url_body (skipn n (tok ++ rest))
  = if (n <? length tok)%nat then Some rest else None.
Proof.
  intros Htok Hrest Hn. rewrite skipn_app.
  replace (n - length tok)%nat with 0%nat by lia. cbn [skipn].
  destruct (n <? length tok)%nat eqn:E.
  - apply Nat.ltb_lt in E.
    assert (Hs : Forall (fun c => url_terminator c = false) (skipn n tok)).
    { rewrite <- (firstn_skipn n tok) in Htok.
      now apply Forall_app in Htok. }
    destruct (skipn n tok) as [|c r] eqn:Es.
    + apply (f_equal (@length _)) in Es. rewrite length_skipn in Es.
      cbn in Es. lia.
    + cbn [app url_body]. inversion Hs as [|? ? Hc Hr]; subst.
      unfold url_char at 1. rewrite Hc. cbn [negb].
      now rewrite drop_while_token.
  - apply Nat.ltb_ge in E. rewrite skipn_all2 by lia. cbn [app].
    destruct rest as [|c r]; [reflexivity|]. cbn in Hrest |- *.
    unfold url_char. now rewrite Hrest.
Qed.

(** At the start of a piece, [URL_RE] matches the whole piece or
    nothing. *)
Lemma match_prefix_token (tok rest : pystr) :
  Forall (fun c => url_terminator c = false) tok -> stops rest ->
  match_prefix URL_RE (tok ++ rest)
  = if link_start tok then Some tok else None.
Proof.
  intros Htok Hrest. unfold match_prefix. rewrite match_URL_RE.
  rewrite (starts_with_stops _ _ scheme_https_class Hrest).
  rewrite (starts_with_stops _ _ scheme_http_class Hrest).
  unfold link_start.
  assert (Hfirst : firstn (length (tok ++ rest) - length rest) (tok ++ rest)
                   = tok).
  { rewrite length_app.
    replace (length tok + length rest - length rest)%nat
      with (length tok) by lia.
    rewrite firstn_app, firstn_all, Nat.sub_diag. cbn. apply app_nil_r. }
  destruct (starts_with scheme_https tok) eqn:E8;
    destruct (starts_with scheme_http tok) eqn:E7; cbn [andb orb].
  - apply starts_with_length in E8, E7.
    rewrite !url_body_token by assumption.
    destruct (8 <? length tok)%nat; destruct (7 <? length tok)%nat;
      cbn [orb]; now rewrite ?Hfirst.
  - apply starts_with_length in E8.
    rewrite url_body_token by assumption.
    destruct (8 <? length tok)%nat; cbn [orb]; now rewrite ?Hfirst.
  - apply starts_with_length in E7.
    rewrite url_body_token by assumption.
    destruct (7 <? length tok)%nat; now rewrite ?Hfirst.
  - reflexivity.
Qed.

Lemma findall_from_skip (r : regex) (a rest : pystr) :
  findall_from r (a ++ rest) (length a) = findall_from r rest 0.
Proof. induction a as [|c a IH]; [reflexivity|]. apply IH. Qed.

Lemma findall_from_stop (rest : pystr) :
  stops rest ->
  findall_from URL_RE rest 0 = findall_from URL_RE (tl rest) 0.
Proof.
  intros H. destruct rest as [|c r]; [reflexivity|].
  cbn [findall_from tl].
  change (c :: r) with ([] ++ c :: r).
  rewrite match_prefix_token by (auto; constructor).
  reflexivity.
Qed.

(** Scanning a piece gives its link, and goes on after the terminator. *)
Lemma findall_from_token (tok rest : pystr) :
  Forall (fun c => url_terminator c = false) tok -> stops rest ->
  findall_from URL_RE (tok ++ rest) 0
  = links_of_token tok ++ findall_from URL_RE (tl rest) 0.
Proof.
  intros Htok Hrest. induction Htok as [|c tok Hc Htok IH].
  - cbn [app]. now apply findall_from_stop.
  - assert (Hall : Forall (fun c => url_terminator c = false) (c :: tok))
      by now constructor.
    cbn [app findall_from].
    change (c :: tok ++ rest) with ((c :: tok) ++ rest).
    rewrite match_prefix_token by assumption.
    unfold links_of_token. cbn [first_link].
    destruct (link_start (c :: tok)).
    + replace (length (c :: tok) - 1)%nat with (length tok)
        by (cbn [length]; lia).
      rewrite findall_from_skip. now rewrite findall_from_stop.
    + exact IH.
Qed.

Lemma split_tokens_cons (c : codepoint) (s : pystr) :
  url_terminator c = false ->
  split_tokens (c :: s) = prepend [c] (split_tokens s).
Proof.
  intros Hc. cbn [split_tokens]. rewrite Hc.
  now destruct (split_tokens s).
Qed.

Lemma split_tokens_not_nil (s : pystr) : split_tokens s <> [].
Proof.
  destruct s as [|c s]; cbn; [discriminate|].
  destruct (url_terminator c); [discriminate|].
  destruct (split_tokens s); discriminate.
Qed.

Lemma prepend_nil (toks : list pystr) : toks <> [] -> prepend [] toks = toks.
Proof. destruct toks; [congruence|reflexivity]. Qed.

Lemma prepend_app (a b : pystr) (toks : list pystr) :
  toks <> [] -> prepend a (prepend b toks) = prepend (a ++ b) toks.
Proof.
  destruct toks; [congruence|]. intros _. cbn. now rewrite app_assoc.
Qed.

Lemma findall_from_prepend (s tok : pystr) :
  Forall (fun c => url_terminator c = false) tok ->
  findall_from URL_RE (tok ++ s) 0
  = flat_map links_of_token (prepend tok (split_tokens s)).
Proof.
  revert tok. induction s as [|c s IH]; intros tok Htok.
  - rewrite findall_from_token by (auto; exact I).
    cbn. now rewrite !app_nil_r.
  - destruct (url_terminator c) eqn:Ec.
    + rewrite findall_from_token by auto.
      cbn [tl split_tokens]. rewrite Ec. cbn [prepend flat_map].
      rewrite app_nil_r. f_equal.
      rewrite <- (prepend_nil (split_tokens_not_nil s)).
      apply (IH []). constructor.
    + rewrite split_tokens_cons by assumption.
      rewrite prepend_app by apply split_tokens_not_nil.
      change (tok ++ c :: s) with (tok ++ [c] ++ s). rewrite app_assoc.
      apply IH. apply Forall_app. split; [assumption|]. now constructor.
Qed.

(** [findall] computes the links of the specification. *)
Lemma findall_extract_links (text : pystr) :
  findall URL_RE text = extract_links text.
Proof.
  unfold findall, extract_links.
  rewrite <- (prepend_nil (split_tokens_not_nil text)).
  apply (@findall_from_prepend text []). constructor.
Qed.

Lemma split_tokens_app (a b : pystr) (c : codepoint) :
  url_terminator c = true ->
  split_tokens (a ++ c :: b) = split_tokens a ++ split_tokens b.
Proof.
  intros Hc. induction a as [|x a IH].
  - cbn. now rewrite Hc.
  - cbn [app split_tokens]. rewrite IH.
    destruct (url_terminator x); [reflexivity|].
    destruct (split_tokens a) eqn:E; [|reflexivity].
    now apply split_tokens_not_nil in E.
Qed.

Lemma split_tokens_no_terminator (s : pystr) :
  Forall (Forall (fun c => url_terminator c = false)) (split_tokens s).
Proof.
  induction s as [|c s IH]; cbn [split_tokens].
  - repeat constructor.
  - destruct (url_terminator c) eqn:Ec.
    + constructor; [constructor|exact IH].
    + destruct (split_tokens s) as [|t ts].
      * repeat constructor. exact Ec.
      * inversion IH; subst. constructor; [|assumption].
        now constructor.
Qed.

Lemma first_link_shaped (tok l : pystr) :
  Forall (fun c => url_terminator c = false) tok ->
  first_link tok = Some l -> link_shaped l.
Proof.
  intros Htok. induction Htok as [|c tok Hc Htok IH]; [discriminate|].
  cbn [first_link]. destruct (link_start (c :: tok)) eqn:E.
  - intros H. inversion H; subst. split; [exact E|]. now constructor.
  - exact IH.
Qed.

Lemma extract_links_shaped (text : pystr) :
  Forall link_shaped (extract_links text).
Proof.
  unfold extract_links. apply Forall_flat_map.
  eapply Forall_impl; [|apply split_tokens_no_terminator].
  intros tok Htok. unfold links_of_token.
  destruct (first_link tok) as [l|] eqn:E; [|constructor].
  constructor; [|constructor]. eapply first_link_shaped; eauto.
Qed.

Lemma findall_link (u : pystr) : link_shaped u -> findall URL_RE u = [u].
Proof.
  intros [Hs Hu]. unfold findall.
  rewrite <- (app_nil_r u) at 1.
  rewrite findall_from_token by (auto; exact I).
  unfold links_of_token. destruct u as [|c u]; [discriminate|].
  cbn [first_link]. now rewrite Hs.
Qed.



(** ** Dates *)

Section Dates.

Local Open Scope Z_scope.

Lemma year_days_ok_spec (leapyear : bool) (k : nat) (n0 : Z) :
  year_days_ok leapyear k n0 = true ->
  forall n, n0 <= n < n0 + Z.of_nat k -> year_day_ok leapyear n = true.
Proof.
  revert n0. induction k as [|k IH]; intros n0 H n Hn; [lia|].
  cbn [year_days_ok] in H. apply andb_true_iff in H. destruct H as [H0 H1].
  destruct (Z.eq_dec n n0) as [->|Hne]; [exact H0|].
  apply (IH (n0 + 1) H1). lia.
Qed.

Lemma every_year_day_ok (leapyear : bool) (n : Z) :
  0 <= n < 365 -> year_day_ok leapyear n = true.
Proof.
  intros Hn. apply (@year_days_ok_spec leapyear 365 0); [|lia].
  destruct leapyear; vm_compute; reflexivity.
Qed.

Lemma month_day_inverse (leapyear : bool) (n : Z) :
  0 <= n < 365 ->
  let '(m, d) := month_day n leapyear in
  1 <= m <= 12 /\ 1 <= d <= 31 /\ days_before m leapyear + d = n + 1.
Proof.
  intros Hn. pose proof (every_year_day_ok leapyear Hn) as H.
  unfold year_day_ok in H. destruct (month_day n leapyear) as [m d].
  repeat (apply andb_true_iff in H; destruct H as [H ?]).
  repeat match goal with
         | H : (_ <=? _) = true |- _ => apply Z.leb_le in H
         | H : (_ =? _) = true |- _ => apply Z.eqb_eq in H
         end.
  lia.
Qed.

Lemma is_leap_of_cycle (q c f a : Z) :
  0 <= c <= 3 -> 0 <= f <= 24 -> 0 <= a <= 3 ->
  is_leap (q * 400 + 1 + c * 100 + f * 4 + a)
  = (a =? 3) && (negb (f =? 24) || (c =? 3)).
Proof.
  intros Hc Hf Ha. unfold is_leap.
  repeat match goal with
         | |- context [(?x =? ?y)] => destruct (Z.eqb_spec x y)
         end; cbn; try reflexivity; exfalso;
    Z.div_mod_to_equations; lia.
Qed.

Lemma days_before_year_of_cycle (q c f a : Z) :
  0 <= c <= 3 -> 0 <= f <= 24 -> 0 <= a <= 3 ->
  let y1 := q * 400 + c * 100 + f * 4 + a in
  y1 * 365 + y1 / 4 - y1 / 100 + y1 / 400
  = 146097 * q + 36524 * c + 1461 * f + 365 * a.
Proof.
  intros Hc Hf Ha y1. subst y1. Z.div_mod_to_equations. lia.
Qed.

Lemma ord2ymd_inverse (o : Z) :
  let '(y, m, d) := ord2ymd o in
  ymd2ord y m d = o /\ 1 <= m <= 12 /\ 1 <= d <= 31
  /\ (1 <= o <= max_ordinal -> 1 <= y <= 9999).
Proof.
  unfold ord2ymd.
  set (n := o - 1).
  pose proof (Z.div_mod n 146097 ltac:(lia)) as E400.
  pose proof (Z.mod_pos_bound n 146097 ltac:(lia)) as B400.
  set (q := n / 146097) in *. set (r := n mod 146097) in *.
  pose proof (Z.div_mod r 36524 ltac:(lia)) as E100.
  pose proof (Z.mod_pos_bound r 36524 ltac:(lia)) as B100.
  set (c := r / 36524) in *. set (r1 := r mod 36524) in *.
  pose proof (Z.div_mod r1 1461 ltac:(lia)) as E4.
  pose proof (Z.mod_pos_bound r1 1461 ltac:(lia)) as B4.
  set (f := r1 / 1461) in *. set (r2 := r1 mod 1461) in *.
  pose proof (Z.div_mod r2 365 ltac:(lia)) as E1.
  pose proof (Z.mod_pos_bound r2 365 ltac:(lia)) as B1.
  set (a := r2 / 365) in *. set (r3 := r2 mod 365) in *.
  assert (Hc : 0 <= c <= 4) by lia.
  assert (Hf : 0 <= f <= 24) by lia.
  assert (Ha : 0 <= a <= 4) by lia.
  cbv zeta.
  destruct (Z.eqb_spec a 4) as [Ea|Na]; [|destruct (Z.eqb_spec c 4) as [Ec|Nc]];
    cbn [orb].
  - (* last day of a 4-year cycle *)
    assert (Hc3 : 0 <= c <= 3) by lia.
    assert (Hf3 : 0 <= f <= 23) by lia.
    split; [|split; [lia|split; [lia|]]].
    + unfold ymd2ord.
      replace (q * 400 + 1 + c * 100 + f * 4 + a - 1 - 1)
        with (q * 400 + c * 100 + f * 4 + 3) by lia.
      rewrite (@days_before_year_of_cycle q c f 3) by lia.
      replace (q * 400 + 1 + c * 100 + f * 4 + a - 1)
        with (q * 400 + 1 + c * 100 + f * 4 + 3) by lia.
      rewrite is_leap_of_cycle by lia.
      destruct (Z.eqb_spec f 24); [lia|].
      match goal with
      | |- context [days_before ?m ?b] => change (days_before m b) with 335
      end.
      unfold n in *. lia.
    + unfold max_ordinal. intros Ho. unfold n in *. lia.
  - (* last day of the 400-year cycle *)
    assert (f = 0 /\ a = 0 /\ r3 = 0) as [Ef [Ea E3]] by lia.
    split; [|split; [lia|split; [lia|]]].
    + unfold ymd2ord.
      replace (q * 400 + 1 + c * 100 + f * 4 + a - 1 - 1)
        with (q * 400 + 3 * 100 + 24 * 4 + 3) by lia.
      rewrite (@days_before_year_of_cycle q 3 24 3) by lia.
      replace (q * 400 + 1 + c * 100 + f * 4 + a - 1)
        with (q * 400 + 1 + 3 * 100 + 24 * 4 + 3) by lia.
      rewrite is_leap_of_cycle by lia.
      match goal with
      | |- context [days_before ?m ?b] => change (days_before m b) with 335
      end.
      unfold n in *. lia.
    + unfold max_ordinal. intros Ho. unfold n in *. lia.
  - assert (Hc3 : 0 <= c <= 3) by lia.
    assert (Ha3 : 0 <= a <= 3) by lia.
    pose proof (@month_day_inverse
                  ((a =? 3) && (negb (f =? 24) || (c =? 3))) r3 B1) as Hmd.
    destruct (month_day r3 ((a =? 3) && (negb (f =? 24) || (c =? 3))))
      as [m d].
    destruct Hmd as [Hm [Hd Hb]].
    split; [|split; [lia|split; [lia|]]].
    + unfold ymd2ord.
      replace (q * 400 + 1 + c * 100 + f * 4 + a - 1)
        with (q * 400 + c * 100 + f * 4 + a) by lia.
      rewrite (@days_before_year_of_cycle q c f a) by lia.
      rewrite is_leap_of_cycle by lia. unfold n in *. lia.
    + unfold max_ordinal. intros Ho. unfold n in *. lia.
Qed.

Lemma fromtimestamp_inverse (n : Z) (dt : datetime) :
  fromtimestamp n = Ok dt -> timestamp_of dt = n /\ valid_datetime dt.
Proof.
  unfold fromtimestamp.
  destruct ((1 <=? epoch_ordinal + n / 86400)
            && (epoch_ordinal + n / 86400 <=? max_ordinal)) eqn:Er;
    [|discriminate].
  apply andb_true_iff in Er. destruct Er as [Er1 Er2].
  apply Z.leb_le in Er1, Er2.
  pose proof (ord2ymd_inverse (epoch_ordinal + n / 86400)) as Hi.
  destruct (ord2ymd (epoch_ordinal + n / 86400)) as [[y m] d].
  destruct Hi as [Ho [Hm [Hd Hy]]]. specialize (Hy (conj Er1 Er2)).
  intros H. inversion H; subst dt; clear H.
  unfold timestamp_of, valid_datetime. cbn [year month day hour minute second microsecond].
  rewrite Ho. split; Z.div_mod_to_equations; lia.
Qed.

Lemma fromtimestamp_in_range (n : Z) :
  -62135596800 <= n <= 253402300799 -> exists dt, fromtimestamp n = Ok dt.
Proof.
  intros Hn. unfold fromtimestamp.
  assert (Hr : (1 <=? epoch_ordinal + n / 86400)
               && (epoch_ordinal + n / 86400 <=? max_ordinal) = true).
  { apply andb_true_iff. unfold epoch_ordinal, max_ordinal.
    split; apply Z.leb_le; Z.div_mod_to_equations; lia. }
  rewrite Hr. destruct (ord2ymd _) as [[y m] d]. eauto.
Qed.

Lemma fromtimestamp_injective (n1 n2 : Z) (dt : datetime) :
  fromtimestamp n1 = Ok dt -> fromtimestamp n2 = Ok dt -> n1 = n2.
Proof.
  intros H1 H2. apply fromtimestamp_inverse in H1, H2. lia.
Qed.

Lemma app_inj_length {A} (a b x y : list A) :
  length a = length b -> a ++ x = b ++ y -> a = b /\ x = y.
Proof.
  revert b. induction a as [|u a IH]; intros [|v b] Hl H; try discriminate.
  - now split.
  - cbn in *. inversion H; subst. destruct (IH b) as [-> ->]; auto.
Qed.

Lemma digits_S (w : nat) (n : Z) :
  digits (S w) n
  = Z.to_N (48 + (n / 10 ^ Z.of_nat w) mod 10) :: digits w n.
Proof.
  unfold digits. rewrite seq_S, rev_app_distr. reflexivity.
Qed.

Lemma digits_length (w : nat) (n : Z) : length (digits w n) = w.
Proof. unfold digits. now rewrite length_map, length_rev, length_seq. Qed.

Lemma digits_mod (w : nat) (a b : Z) :
  digits w a = digits w b -> a mod 10 ^ Z.of_nat w = b mod 10 ^ Z.of_nat w.
Proof.
  induction w as [|w IH]; intros H.
  - now rewrite !Z.mod_1_r.
  - rewrite !digits_S in H.
    assert (H0 := f_equal (fun l => hd 0%N l) H). cbn [hd] in H0.
    apply (f_equal (@tl _)) in H. cbn [tl] in H. apply IH in H.
    pose proof (Z.mod_pos_bound (a / 10 ^ Z.of_nat w) 10 ltac:(lia)).
    pose proof (Z.mod_pos_bound (b / 10 ^ Z.of_nat w) 10 ltac:(lia)).
    apply Z2N.inj in H0; [|lia ..].
    assert (H0' : (a / 10 ^ Z.of_nat w) mod 10 = (b / 10 ^ Z.of_nat w) mod 10)
      by lia.
    rewrite Nat2Z.inj_succ, Z.pow_succ_r by lia.
    rewrite (Z.mul_comm 10).
    rewrite !Z.rem_mul_r by lia. congruence.
Qed.

Lemma digits_inj (w : nat) (a b : Z) :
  0 <= a < 10 ^ Z.of_nat w -> 0 <= b < 10 ^ Z.of_nat w ->
  digits w a = digits w b -> a = b.
Proof.
  intros Ha Hb H. apply digits_mod in H.
  now rewrite !Z.mod_small in H by assumption.
Qed.

Ltac peel H :=
  apply app_inj_length in H;
  [ let E := fresh "E" in destruct H as [E H]
  | rewrite ?digits_length; reflexivity ].

Ltac digits_fields :=
  repeat match goal with
         | H : digits _ _ = digits _ _ |- _ =>
             apply digits_inj in H;
             [ subst
             | change (10 ^ Z.of_nat 4) with 10000;
               change (10 ^ Z.of_nat 2) with 100;
               change (10 ^ Z.of_nat 6) with 1000000; lia .. ]
         end.

Lemma str_datetime_app_inj (t1 t2 : datetime) (x1 x2 : pystr) :
  valid_datetime t1 -> valid_datetime t2 ->
  str_datetime t1 ++ x1 = str_datetime t2 ++ x2 ->
  t1 = t2 /\ x1 = x2.
Proof.
  intros V1 V2 H.
  destruct t1 as [y1 m1 d1 H1 M1 S1 u1], t2 as [y2 m2 d2 H2 M2 S2 u2].
  unfold valid_datetime in V1, V2. unfold str_datetime in H.
  cbn [year month day hour minute second microsecond] in *.
  rewrite <- !app_assoc in H.
  peel H. peel H. peel H. peel H. peel H. peel H. peel H. peel H. peel H.
  peel H. peel H.
  change (lit "+00:00") with [43; 48; 48; 58; 48; 48]%N in H.
  change (lit ".") with [46%N] in H.
  destruct (Z.eqb_spec u1 0) as [->|N1], (Z.eqb_spec u2 0) as [->|N2].
  - cbn [app] in H. digits_fields. split; [reflexivity|].
    now apply (app_inv_head [43; 48; 48; 58; 48; 48]%N).
  - cbn [app] in H. discriminate.
  - cbn [app] in H. discriminate.
  - rewrite <- !app_assoc in H. peel H. peel H.
    digits_fields. split; [reflexivity|].
    now apply (app_inv_head [43; 48; 48; 58; 48; 48]%N).
Qed.

End Dates.

(** ** Distinct tuples *)

Lemma split_at_pipe (a1 a2 r1 r2 : pystr) :
  no_pipe a1 -> no_pipe a2 ->
  a1 ++ 124%N :: r1 = a2 ++ 124%N :: r2 -> a1 = a2 /\ r1 = r2.
Proof.
  intros H1. revert a2. induction H1 as [|c a1 Hc H1 IH]; intros a2 H2 H.
  - destruct H2 as [|c2 a2 Hc2 H2].
    + cbn in H. now inversion H.
    + cbn in H. inversion H. congruence.
  - destruct H2 as [|c2 a2 Hc2 H2].
    + cbn in H. inversion H. congruence.
    + cbn in H. inversion H; subst. destruct (IH a2 H2) as [-> ->]; auto.
Qed.

Lemma fingerprint_input_inj (w : Env) (s1 n1 s2 n2 : json)
      (t1 t2 : datetime) (u1 u2 : pystr) :
  no_pipe (py_format (py_repr w) s1) -> no_pipe (py_format (py_repr w) n1) ->
  no_pipe (py_format (py_repr w) s2) -> no_pipe (py_format (py_repr w) n2) ->
  valid_datetime t1 -> valid_datetime t2 ->
  fingerprint_input w s1 n1 t1 u1 = fingerprint_input w s2 n2 t2 u2 ->
  py_format (py_repr w) s1 = py_format (py_repr w) s2
  /\ py_format (py_repr w) n1 = py_format (py_repr w) n2
  /\ t1 = t2 /\ u1 = u2.
Proof.
  intros Ps1 Pn1 Ps2 Pn2 V1 V2 H. unfold fingerprint_input in H.
  change (lit "|") with [124%N] in H. cbn [app] in H.
  apply split_at_pipe in H; try assumption. destruct H as [Es H].
  apply split_at_pipe in H; try assumption. destruct H as [En H].
  apply str_datetime_app_inj in H; try assumption. destruct H as [Et H].
  inversion H. auto.
Qed.

(** C4 (as amended). When the sender id and the sender name, as the
    f-string renders them, hold no [|], and the timestamps are valid
    datetimes, two tuples that differ in the rendered sender id, the rendered
    sender name, the timestamp or the url have different pre-hash texts; and
    different epoch seconds (one second apart, say) give different
    timestamps. *)
Theorem distinct_tuples_distinct_fingerprint_inputs :
  forall w : Env,
    (forall (s1 n1 s2 n2 : json) (t1 t2 : datetime) (u1 u2 : pystr),
        no_pipe (py_format (py_repr w) s1) ->
        no_pipe (py_format (py_repr w) n1) ->
        no_pipe (py_format (py_repr w) s2) ->
        no_pipe (py_format (py_repr w) n2) ->
        valid_datetime t1 -> valid_datetime t2 ->
        (py_format (py_repr w) s1, py_format (py_repr w) n1, t1, u1)
        <> (py_format (py_repr w) s2, py_format (py_repr w) n2, t2, u2) ->
        fingerprint_input w s1 n1 t1 u1 <> fingerprint_input w s2 n2 t2 u2)
    /\ (forall (e1 e2 : Z) (t1 t2 : datetime),
           fromtimestamp e1 = Ok t1 -> fromtimestamp e2 = Ok t2 ->
           e1 <> e2 ->
           t1 <> t2 /\ valid_datetime t1 /\ valid_datetime t2).
Proof.
  intros w. split.
  - intros s1 n1 s2 n2 t1 t2 u1 u2 Ps1 Pn1 Ps2 Pn2 V1 V2 Hne H.
    apply fingerprint_input_inj in H; try assumption.
    destruct H as [E1 [E2 [E3 E4]]]. apply Hne. congruence.
  - intros e1 e2 t1 t2 H1 H2 Hne.
    pose proof (fromtimestamp_inverse _ H1) as [I1 V1].
    pose proof (fromtimestamp_inverse _ H2) as [I2 V2].
    split; [|now split]. intros ->. lia.
Qed.


Lemma distinct_tuples_distinct_fingerprint_inputs_witness :
  fingerprint_input test_env (JStr (lit "5511999990000")) (JStr (lit "Ana"))
    (DT 2023 11 14 22 13 20 0) (lit "https://loja.com/p/1")
  <> fingerprint_input test_env (JStr (lit "5511999990000")) (JStr (lit "Ana"))
       (DT 2023 11 14 22 13 21 0) (lit "https://loja.com/p/1")
  /\ DT 2023 11 14 22 13 20 0 <> DT 2023 11 14 22 13 21 0.
Proof.
  split.
  - apply (proj1 (distinct_tuples_distinct_fingerprint_inputs test_env));
      try (unfold no_pipe; cbn; repeat constructor; discriminate);
      try (unfold valid_datetime; cbn; lia).
  - apply (proj2 (distinct_tuples_distinct_fingerprint_inputs test_env)
             1700000000%Z 1700000001%Z); [reflexivity|reflexivity|lia].
Defined.

(** C4 as stated fails: the delimiter can occur in a field, and then two
    tuples that differ in two fields have the same pre-hash text and the
    same fingerprint. *)
Lemma delimiter_in_field_collides :
  (lit "a|b", lit "c") <> (lit "a", lit "b|c")
  /\ fingerprint_input test_env (JStr (lit "a|b")) (JStr (lit "c"))
       (DT 2023 11 14 22 13 20 0) (lit "https://loja.com/p/1")
     = fingerprint_input test_env (JStr (lit "a")) (JStr (lit "b|c"))
         (DT 2023 11 14 22 13 20 0) (lit "https://loja.com/p/1")
  /\ fingerprint test_env (JStr (lit "a|b")) (JStr (lit "c"))
       (DT 2023 11 14 22 13 20 0) (lit "https://loja.com/p/1")
     = fingerprint test_env (JStr (lit "a")) (JStr (lit "b|c"))
         (DT 2023 11 14 22 13 20 0) (lit "https://loja.com/p/1").
Proof.
  split; [intros H; inversion H|]. split; reflexivity.
Qed.

(** ** Running the handlers *)

(** The equations of [bind] and [for_each]. *)
Lemma bind_run {A B} (c : M A) (k : A -> M B) (s : State) :
  bind c k s
  = match c s with
    | (Ok a, s') => k a s'
    | (Raise e, s') => (Raise e, s')
    end.
Proof. reflexivity. Qed.

Lemma bind_lift_Ok {A B} (a : A) (k : A -> M B) (s : State) :
  bind (lift (Ok a)) k s = k a s.
Proof. reflexivity. Qed.

Lemma for_each_app {A} (l1 l2 : list A) (body : A -> M unit) (s : State) :
  for_each (l1 ++ l2) body s
  = match for_each l1 body s with
    | (Ok _, s') => for_each l2 body s'
    | (Raise e, s') => (Raise e, s')
    end.
Proof.
  revert s. induction l1 as [|a l1 IH]; intros s; [reflexivity|].
  cbn [app for_each]. rewrite !bind_run.
  destruct (body a s) as [[[]|e] s1]; [apply IH|reflexivity].
Qed.

(** A loop whose item [a] raises early stops there. *)
Lemma for_each_cut_here {A} (pre post : list A) (a : A) (body : A -> M unit) :
  raises_early (body a) ->
  cut_to (for_each (pre ++ a :: post) body) (for_each pre body).
Proof.
  intros Hr s. rewrite for_each_app.
  destruct (for_each pre body s) as [[[]|e] s1]; cbn [snd].
  - cbn [for_each]. rewrite bind_run.
    destruct (Hr s1) as [e [s2 [-> Hd]]]. split; [eauto|exact Hd].
  - split; [eauto|reflexivity].
Qed.

(** A loop stops inside the item whose body is cut. *)
Lemma for_each_cut_inside {A} (pre post : list A) (a a' : A)
      (body : A -> M unit) :
  cut_to (body a) (body a') ->
  cut_to (for_each (pre ++ a :: post) body) (for_each (pre ++ [a']) body).
Proof.
  intros Hc s. rewrite !for_each_app.
  destruct (for_each pre body s) as [[[]|e] s1]; cbn [snd].
  - cbn [for_each]. rewrite !bind_run.
    destruct (Hc s1) as [[e [s2 He]] Hd]. rewrite He in Hd |- *.
    split; [eauto|]. cbn [snd] in Hd |- *.
    destruct (body a' s1) as [[[]|e'] s3]; exact Hd.
  - split; [eauto|reflexivity].
Qed.

Lemma cut_bind {A B C} (c : M A) (k : A -> M B) (k' : A -> M C) :
  (forall a, cut_to (k a) (k' a)) -> cut_to (bind c k) (bind c k').
Proof.
  intros Hk s. rewrite !bind_run.
  destruct (c s) as [[a|e] s1]; [apply Hk|].
  split; [eauto|reflexivity].
Qed.

(** The loops over a payload, an entry and a change built by
    [payload_with], [entry_with] and [value_change]. *)
Lemma process_change_value (w : Env) (contacts : json) (messages : list json)
      (s : State) :
  process_change w (value_change contacts messages) s
  = (wa_name <- resolve_wa_name (py_or contacts (JArr [])) ;;
     for_each messages (process_message w wa_name)) s.
Proof. destruct messages; reflexivity. Qed.

Lemma cut_ext {A B} (c1 c2 : M A) (c1' c2' : M B) :
  (forall s, c1 s = c2 s) -> (forall s, c1' s = c2' s) ->
  cut_to c2 c2' -> cut_to c1 c1'.
Proof. intros E E' H s. rewrite E, E'. apply H. Qed.

Lemma process_change_cut (w : Env) (contacts m : json) (pre post : list json) :
  (forall name, raises_early (process_message w name m)) ->
  cut_to (process_change w (value_change contacts (pre ++ m :: post)))
         (process_change w (value_change contacts pre)).
Proof.
  intros Hr.
  eapply cut_ext; [apply process_change_value..|].
  apply cut_bind. intros name. now apply for_each_cut_here.
Qed.

Lemma process_entry_changes (w : Env) (changes : list json) (s : State) :
  process_entry w (entry_with changes) s
  = for_each changes (process_change w) s.
Proof. reflexivity. Qed.

Lemma process_payload_entries (w : Env) (entries : list json) (s : State) :
  process_payload w (payload_with entries) s
  = for_each entries (process_entry w) s.
Proof. reflexivity. Qed.

Lemma process_payload_cut (w : Env) (contacts m : json)
      (es es' cs cs' pre post : list json) :
  (forall name, raises_early (process_message w name m)) ->
  cut_to
    (process_payload w
       (payload_with
          (es ++ entry_with
                   (cs ++ value_change contacts (pre ++ m :: post) :: cs')
              :: es')))
    (process_payload w
       (payload_with
          (es ++ [entry_with (cs ++ [value_change contacts pre])]))).
Proof.
  intros Hr.
  eapply cut_ext; [apply process_payload_entries..|].
  apply for_each_cut_inside.
  eapply cut_ext; [apply process_entry_changes..|].
  apply for_each_cut_inside. now apply process_change_cut.
Qed.

Lemma webhook_receive_state (w : Env) (payload : json) (s : State) :
  snd (webhook_receive w (Some payload) s)
  = snd (process_payload w (py_or payload (JObj [])) s).
Proof.
  unfold webhook_receive.
  now destruct (process_payload w (py_or payload (JObj [])) s) as [[x|e] s'].
Qed.

(** A message that raises ends the delivery: the table is left as by the
    payload cut just before that message. *)
Lemma payload_cut (w : Env) (contacts m : json)
      (es es' cs cs' pre post : list json) (s : State) :
  (forall name, raises_early (process_message w name m)) ->
  deals_after w
    (payload_with
       (es ++ entry_with
                (cs ++ value_change contacts (pre ++ m :: post) :: cs')
           :: es')) s
  = deals_after w
      (payload_with
         (es ++ [entry_with (cs ++ [value_change contacts pre])])) s.
Proof.
  intros Hr. unfold deals_after. rewrite !webhook_receive_state.
  change (py_or (payload_with ?x) (JObj [])) with (payload_with x).
  apply process_payload_cut. exact Hr.
Qed.

(** ** Computations that leave the table alone *)

Lemma keeps_ret {A} (a : A) : keeps_deals (ret a).
Proof. intros s. reflexivity. Qed.

Lemma keeps_raise {A} (e : exn) : keeps_deals (@raise A e).
Proof. intros s. reflexivity. Qed.

Lemma keeps_lift {A} (r : result A) : keeps_deals (lift r).
Proof. intros s. reflexivity. Qed.

Lemma keeps_ask {A} (oracle : nat -> A) : keeps_deals (ask oracle).
Proof. intros s. reflexivity. Qed.

Lemma keeps_bind {A B} (c : M A) (k : A -> M B) :
  keeps_deals c -> (forall a, keeps_deals (k a)) -> keeps_deals (bind c k).
Proof.
  intros Hc Hk s. rewrite bind_run. specialize (Hc s).
  destruct (c s) as [[a|e] s1]; cbn [snd] in *.
  - now rewrite Hk.
  - exact Hc.
Qed.

Create HintDb keeps.
#[local] Hint Resolve keeps_ret keeps_raise keeps_lift keeps_ask : keeps.

Ltac keeps :=
  repeat first
    [ apply keeps_bind; [|intros ?]
    | solve [auto with keeps]
    | match goal with
      | |- keeps_deals (if ?b then _ else _) => destruct b
      | |- keeps_deals (match ?x with _ => _ end) => destruct x
      end ].

Lemma keeps_requests_get (w : Env) (url : json) (auth : pystr) (timeout : Z) :
  keeps_deals (requests_get w url auth timeout).
Proof. unfold requests_get. keeps. Qed.

Lemma keeps_raise_for_status (r : response) : keeps_deals (raise_for_status r).
Proof. unfold raise_for_status. keeps. Qed.

Lemma keeps_response_json (r : response) : keeps_deals (response_json r).
Proof. unfold response_json. keeps. Qed.

#[local] Hint Resolve keeps_requests_get keeps_raise_for_status
  keeps_response_json : keeps.

Lemma keeps_download_media (w : Env) (media_id : json) :
  keeps_deals (download_media w media_id).
Proof. unfold download_media. keeps. Qed.

Lemma keeps_resolve_msg_time (w : Env) (ts : json) :
  keeps_deals (resolve_msg_time w ts).
Proof. unfold resolve_msg_time. keeps. Qed.

#[local] Hint Resolve keeps_download_media keeps_resolve_msg_time : keeps.

Lemma keeps_message_content (w : Env) (m mtype : json) :
  keeps_deals (message_content w m mtype).
Proof. unfold message_content. keeps. Qed.

Lemma keeps_resolve_wa_name (contacts : json) :
  keeps_deals (resolve_wa_name contacts).
Proof. unfold resolve_wa_name. keeps. Qed.

Lemma resolve_msg_time_truthy (w : Env) (ts : json) (s : State) :
  py_truthy ts = true ->
  resolve_msg_time w ts s
  = (rbind (py_int (int_max_str_digits w) ts) fromtimestamp, s).
Proof.
  intros Ht. unfold resolve_msg_time. rewrite Ht, bind_run. unfold lift.
  now destruct (py_int (int_max_str_digits w) ts).
Qed.

Lemma resolve_msg_time_falsy (w : Env) (ts : json) (s : State) :
  py_truthy ts = false ->
  resolve_msg_time w ts s
  = (Ok (now w (tick s)), mkState (deals s) (next_id s) (S (tick s))).
Proof. intros Ht. unfold resolve_msg_time. now rewrite Ht. Qed.

(** A message whose media fetch fails raises before anything is saved. *)
Lemma failed_fetch_raises (w : Env) (m img mid : json) :
  py_get m (lit "type") JNull = Ok (JStr (lit "image")) ->
  py_get m (lit "image") JNull = Ok img ->
  py_get (py_or img (JObj [])) (lit "id") JNull = Ok mid ->
  py_truthy mid = true ->
  (forall s, exists e s', download_media w mid s = (Raise e, s')) ->
  forall name, raises_early (process_message w name m).
Proof.
  intros Hty Himg Hid Htr Hfail name s1.
  destruct m as [| | | | | |pairs]; try discriminate.
  unfold process_message. rewrite bind_run. cbn [py_get lift].
  rewrite bind_run. cbn [lift].
  rewrite bind_run.
  pose proof (@keeps_resolve_msg_time w
                match dict_lookup pairs (lit "timestamp") with
                | Some v => v | None => JNull end s1) as Hk.
  destruct (resolve_msg_time w _ s1) as [[msg_time|e] s2]; cbn [snd] in Hk;
    [|eauto].
  rewrite bind_run. cbn [lift]. cbn [py_get] in Hty. rewrite bind_run.
  injection Hty as Hty. rewrite Hty.
  unfold message_content.
  change (py_eq_str (JStr (lit "image")) (lit "text")) with false.
  change (py_eq_str (JStr (lit "image")) (lit "image")) with true.
  cbv iota. rewrite Himg. rewrite !bind_run. cbn [lift].
  destruct (py_or img (JObj [])) as [| | | | | |ipairs]; try discriminate.
  cbn [py_get] in Hid |- *. rewrite Hid.
  rewrite !bind_lift_Ok, Htr, bind_run.
  pose proof (@keeps_download_media w mid s2) as Hk2.
  destruct (Hfail s2) as [e [s3 Hd]]. rewrite Hd in Hk2 |- *.
  cbn [snd] in Hk2. exists e, s3. split; [reflexivity|congruence].
Qed.

(** A message whose timestamp cannot be converted raises before anything
    is saved. *)
Lemma bad_timestamp_raises (w : Env) (m ts : json) (e : exn) :
  py_get m (lit "timestamp") JNull = Ok ts ->
  py_truthy ts = true ->
  rbind (py_int (int_max_str_digits w) ts) fromtimestamp = Raise e ->
  forall name, raises_early (process_message w name m).
Proof.
  intros Hts Htr Hbad name s1.
  destruct m as [| | | | | |pairs]; try discriminate.
  unfold process_message. rewrite bind_run. cbn [py_get lift].
  rewrite bind_run. cbn [lift]. cbn [py_get] in Hts. injection Hts as Hts.
  rewrite Hts, bind_run, resolve_msg_time_truthy, Hbad by assumption.
  eauto.
Qed.

(** ** Failures inside a delivery *)




(** ** The timestamp of a message *)

Lemma fromtimestamp_whole_second (n : Z) (dt : datetime) :
  fromtimestamp n = Ok dt -> microsecond dt = 0%Z.
Proof.
  unfold fromtimestamp.
  destruct ((1 <=? epoch_ordinal + n / 86400)%Z
            && (epoch_ordinal + n / 86400 <=? max_ordinal)%Z);
    [|discriminate].
  destruct (ord2ymd _) as [[y m] d]. intros H. now inversion H.
Qed.




(** ** The media columns *)

Lemma preserves_keeps (I : list Deal -> Prop) {A} (c : M A) :
  keeps_deals c -> preserves I c.
Proof. intros Hk s Hs. now rewrite Hk. Qed.

Lemma preserves_bind (I : list Deal -> Prop) {A B} (c : M A) (k : A -> M B) :
  preserves I c -> (forall a, preserves I (k a)) -> preserves I (bind c k).
Proof.
  intros Hc Hk s Hs. rewrite bind_run. specialize (Hc s Hs).
  destruct (c s) as [[a|e] s1]; cbn [snd] in *; [now apply Hk|exact Hc].
Qed.

Lemma preserves_for_each (I : list Deal -> Prop) {A} (l : list A)
      (body : A -> M unit) :
  (forall a, preserves I (body a)) -> preserves I (for_each l body).
Proof.
  intros Hb. induction l as [|a l IH].
  - intros s Hs. exact Hs.
  - cbn [for_each]. apply preserves_bind; [apply Hb|intros _; exact IH].
Qed.

Lemma preserves_lift_bind (I : list Deal -> Prop) {A B} (r : result A)
      (k : A -> M B) :
  (forall a, preserves I (k a)) -> preserves I (bind (lift r) k).
Proof.
  intros Hk. apply preserves_bind; [|exact Hk].
  apply preserves_keeps, keeps_lift.
Qed.

Lemma save_deal_paired (w : Env) f n t u b mime :
  (binary_or_null b = None <-> mime = JNull) ->
  preserves (Forall paired) (save_deal w f n t u b mime).
Proof.
  intros Hp s Hs. rewrite save_deal_run.
  destruct (fingerprint w f n t u) as [h|e]; [|exact Hs].
  destruct (is_empty (DATABASE_URL w)); [exact Hs|].
  cbv zeta. destruct (db_connect w (tick s)); [|exact Hs].
  unfold insert_deal.
  destruct (db_accepts w f n t u h (binary_or_null b) mime); [|exact Hs].
  cbn [snd deals]. destruct (has_hash h (deals s)); [exact Hs|].
  apply Forall_app. split; [exact Hs|]. constructor; [|constructor].
  exact Hp.
Qed.

Lemma message_content_paired (w : Env) (m mtype : json) (s s' : State)
      (text : json) (b : option bytes) (mime : json) :
  sound_media w ->
  message_content w m mtype s = (Ok (text, b, mime), s') ->
  binary_or_null b = None <-> mime = JNull.
Proof.
  intros Hw. unfold message_content.
  destruct (py_eq_str mtype (lit "text")).
  - rewrite bind_run. unfold lift.
    destruct (py_get m (lit "text") JNull) as [t|e]; [|discriminate].
    rewrite bind_run.
    destruct (py_get (py_or t (JObj [])) (lit "body") JNull); [|discriminate].
    intros H. inversion H. cbn. tauto.
  - destruct (py_eq_str mtype (lit "image")).
    + rewrite bind_run. unfold lift.
      destruct (py_get m (lit "image") JNull) as [i|e]; [|discriminate].
      rewrite bind_run.
      destruct (py_get (py_or i (JObj [])) (lit "caption") JNull) as [c|e];
        [|discriminate].
      rewrite bind_run.
      destruct (py_get (py_or i (JObj [])) (lit "id") JNull) as [mid|e];
        [|discriminate].
      destruct (py_truthy mid).
      * rewrite bind_run.
        destruct (download_media w mid s) as [[[data mime']|e] s1] eqn:Ed;
          [|discriminate].
        apply Hw in Ed. destruct Ed as [Hd Hm].
        intros H. inversion H; subst.
        destruct data as [|x data]; [congruence|]. cbn.
        split; [discriminate|congruence].
      * intros H. inversion H. cbn. tauto.
    + intros H. inversion H. cbn. tauto.
Qed.

Lemma process_message_paired (w : Env) (name m : json) :
  sound_media w -> preserves (Forall paired) (process_message w name m).
Proof.
  intros Hw. unfold process_message.
  apply preserves_lift_bind; intros wa_from.
  apply preserves_lift_bind; intros ts.
  apply preserves_bind;
    [apply preserves_keeps, keeps_resolve_msg_time|intros msg_time].
  apply preserves_lift_bind; intros mtype.
  intros s Hs. rewrite bind_run.
  pose proof (@keeps_message_content w m mtype s) as Hk.
  destruct (message_content w m mtype s) as [[[[text b] mime]|e] s1] eqn:Ec;
    cbn [snd] in Hk; [|cbn [snd]; now rewrite Hk].
  apply message_content_paired in Ec; [|exact Hw].
  rewrite <- Hk in Hs. clear Hk. revert s1 Hs.
  change (preserves (Forall paired)
            (urls <- lift (URL_RE_findall (py_or text (JStr []))) ;;
             for_each urls (fun url =>
               save_deal w wa_from name msg_time url b mime))).
  apply preserves_lift_bind; intros urls.
  apply preserves_for_each; intros u. now apply save_deal_paired.
Qed.

Lemma process_payload_paired (w : Env) (payload : json) :
  sound_media w -> preserves (Forall paired) (process_payload w payload).
Proof.
  intros Hw. unfold process_payload.
  apply preserves_lift_bind; intros entries.
  apply preserves_lift_bind; intros items.
  apply preserves_for_each; intros entry. unfold process_entry.
  apply preserves_lift_bind; intros changes.
  apply preserves_lift_bind; intros chs.
  apply preserves_for_each; intros ch. unfold process_change.
  apply preserves_lift_bind; intros v.
  apply preserves_lift_bind; intros ms.
  apply preserves_lift_bind; intros cs.
  apply preserves_bind;
    [apply preserves_keeps, keeps_resolve_wa_name|intros name].
  apply preserves_lift_bind; intros msgs.
  apply preserves_for_each; intros m. now apply process_message_paired.
Qed.

(** C5 (as amended). Every Deal inserted for a text message, or for an
    image message without a media id, has [image_bytes] and [image_mime] both
    absent; for an image message whose media fetch returns content that is
    not empty and a MIME type that is not null, both are present.  So where
    every successful media fetch is of that kind, a delivery keeps the
    invariant that the two columns are both present or both absent. *)
Theorem media_columns_paired :
  forall (w : Env) (payload : json) (s : State),
    sound_media w ->
    Forall paired (deals s) ->
    Forall paired (deals_after w payload s).
Proof.
  intros w payload s Hw Hs. unfold deals_after, webhook_receive.
  pose proof (@process_payload_paired w (py_or payload (JObj [])) Hw s Hs)
    as H.
  destruct (process_payload w (py_or payload (JObj [])) s) as [[x|e] s'];
    exact H.
Qed.

Lemma media_columns_paired_witness :
  Forall paired
    (deals_after jpeg_env
       (delivery (contact (lit "Ana"))
          [image_message (lit "5511") (lit "1700000000")
             (lit "confira https://shop.example/x") (lit "media-1");
           text_message (lit "5511") (lit "1700000060")
             (lit "promo top https://loja.com/p/1")])
       empty_state).
Proof.
  apply media_columns_paired; [|constructor].
  intros mid s data mime s' H. vm_compute in H. inversion H; subst.
  split; discriminate.
Defined.


(** C5 as stated fails: when the media fetch returns an empty body, the
    Deal is stored with a MIME type and no image bytes. *)
Lemma empty_media_stores_mime_without_bytes :
  map (fun d => (image_bytes d, image_mime d))
    (deals_after test_env
       (delivery (contact (lit "Ana"))
          [image_message (lit "5511") (lit "1700000000")
             (lit "confira https://shop.example/x") (lit "media-empty")])
       empty_state)
  = [(None, JStr (lit "image/jpeg"))]
  /\ ~ Forall paired
        (deals_after test_env
           (delivery (contact (lit "Ana"))
              [image_message (lit "5511") (lit "1700000000")
                 (lit "confira https://shop.example/x") (lit "media-empty")])
           empty_state).
Proof.
  assert (E : map (fun d => (image_bytes d, image_mime d))
                (deals_after test_env
                   (delivery (contact (lit "Ana"))
                      [image_message (lit "5511") (lit "1700000000")
                         (lit "confira https://shop.example/x")
                         (lit "media-empty")])
                   empty_state)
              = [(None, JStr (lit "image/jpeg"))])
    by (vm_compute; reflexivity).
  split; [exact E|]. intros H.
  assert (H' : Forall (fun p : option bytes * json =>
                         fst p = None <-> snd p = JNull)
                 [(None, JStr (lit "image/jpeg"))]).
  { rewrite <- E. apply Forall_map. exact H. }
  inversion H' as [|p l Hp Hl]; subst. cbn [fst snd] in Hp.
  destruct Hp as [Hp _]. specialize (Hp eq_refl). discriminate.
Qed.

(** ** Replaying a delivery *)

Lemma covered_refl (rows : list Deal) : covered rows rows.
Proof. intros h H. exact H. Qed.

Lemma covered_trans (a b c : list Deal) :
  covered a b -> covered b c -> covered a c.
Proof. intros Hab Hbc h H. auto. Qed.

Lemma absorbing_pure {A} (c : M A) :
  (forall s s', fst (c s) = fst (c s')) -> keeps_deals c -> absorbing c.
Proof.
  intros Hf Hk s. split.
  - rewrite Hk. apply covered_refl.
  - intros s' _. split; [apply Hf|apply Hk].
Qed.

Lemma absorbing_ret {A} (a : A) : absorbing (ret a).
Proof. apply absorbing_pure; [reflexivity|apply keeps_ret]. Qed.

Lemma absorbing_raise {A} (e : exn) : absorbing (@raise A e).
Proof. apply absorbing_pure; [reflexivity|apply keeps_raise]. Qed.

Lemma absorbing_lift {A} (r : result A) : absorbing (lift r).
Proof. apply absorbing_pure; [reflexivity|apply keeps_lift]. Qed.

Lemma absorbing_ask {A} (oracle : nat -> A) :
  (forall t t', oracle t = oracle t') -> absorbing (ask oracle).
Proof.
  intros Ho. apply absorbing_pure; [|apply keeps_ask].
  intros s s'. cbn. f_equal. apply Ho.
Qed.

Lemma absorbing_bind {A B} (c : M A) (k : A -> M B) :
  absorbing c -> (forall a, absorbing (k a)) -> absorbing (bind c k).
Proof.
  intros Hc Hk s. rewrite bind_run.
  destruct (Hc s) as [Hc1 Hc2].
  destruct (c s) as [[a|e] s1] eqn:Ec; cbn [fst snd] in *.
  - destruct (Hk a s1) as [Hk1 Hk2]. split.
    + eapply covered_trans; eauto.
    + intros s' Hs'. rewrite bind_run.
      destruct (Hc2 s') as [Hr Hd].
      { eapply covered_trans; eauto. }
      destruct (c s') as [[a'|e'] s1']; cbn [fst snd] in *; [|discriminate].
      injection Hr as ->.
      destruct (Hk2 s1') as [Hr2 Hd2]; [now rewrite Hd|].
      split; congruence.
  - split; [exact Hc1|]. intros s' Hs'. rewrite bind_run.
    destruct (Hc2 s' Hs') as [Hr Hd].
    destruct (c s') as [[a'|e'] s1']; cbn [fst snd] in *; [discriminate|].
    split; [injection Hr as ->; reflexivity|exact Hd].
Qed.

Lemma absorbing_for_each {A} (l : list A) (body : A -> M unit) :
  Forall (fun a => absorbing (body a)) l -> absorbing (for_each l body).
Proof.
  induction 1 as [|a l Ha Hl IH].
  - apply absorbing_ret.
  - cbn [for_each]. apply absorbing_bind; [exact Ha|intros _; exact IH].
Qed.

Lemma has_hash_app (h : pystr) (a b : list Deal) :
  has_hash h (a ++ b) = has_hash h a || has_hash h b.
Proof. unfold has_hash. apply existsb_app. Qed.

Lemma absorbing_insert_deal (w : Env) f n t u h b m :
  absorbing (insert_deal w f n t u h b m).
Proof.
  intros s. unfold insert_deal.
  destruct (db_accepts w f n t u h b m).
  - cbn [fst snd deals]. split.
    + destruct (has_hash h (deals s)); [apply covered_refl|].
      intros h' Hh'. rewrite has_hash_app, Hh'. reflexivity.
    + intros s' Hs'. split; [reflexivity|].
      assert (Hin : has_hash h (deals s') = true).
      { apply Hs'. destruct (has_hash h (deals s)) eqn:E; [exact E|].
        rewrite has_hash_app. cbn. rewrite pystr_eqb_refl.
        now rewrite orb_true_r. }
      now rewrite Hin.
  - cbn [fst snd]. split; [apply covered_refl|]. intros s' _. now split.
Qed.

Lemma absorbing_db_conn (w : Env) : stable_env w -> absorbing (db_conn w).
Proof.
  intros [_ Hdb]. unfold db_conn.
  destruct (is_empty (DATABASE_URL w)); [apply absorbing_raise|].
  apply absorbing_bind; [now apply absorbing_ask|].
  intros []; [apply absorbing_ret|apply absorbing_raise].
Qed.

Lemma absorbing_save_deal (w : Env) f n t u b m :
  stable_env w -> absorbing (save_deal w f n t u b m).
Proof.
  intros Hw. unfold save_deal.
  apply absorbing_bind; [apply absorbing_lift|intros h].
  apply absorbing_bind; [now apply absorbing_db_conn|intros _].
  apply absorbing_insert_deal.
Qed.

Lemma absorbing_requests_get (w : Env) url auth timeout :
  stable_env w -> absorbing (requests_get w url auth timeout).
Proof.
  intros [Hh _]. unfold requests_get.
  apply absorbing_bind; [|intros r; apply absorbing_lift].
  apply absorbing_ask. intros t t'. apply Hh.
Qed.

Lemma absorbing_if {A} (b : bool) (c1 c2 : M A) :
  absorbing c1 -> absorbing c2 -> absorbing (if b then c1 else c2).
Proof. now destruct b. Qed.

Lemma absorbing_download_media (w : Env) (media_id : json) :
  stable_env w -> absorbing (download_media w media_id).
Proof.
  intros Hw. unfold download_media.
  apply absorbing_if; [apply absorbing_raise|]. cbv zeta.
  apply absorbing_bind; [now apply absorbing_requests_get|intros meta].
  apply absorbing_bind.
  { unfold raise_for_status.
    apply absorbing_if; [apply absorbing_raise|apply absorbing_ret]. }
  intros _. apply absorbing_bind.
  { unfold response_json.
    destruct (json_body meta); [apply absorbing_ret|apply absorbing_raise]. }
  intros j. apply absorbing_bind; [apply absorbing_lift|intros media_url].
  apply absorbing_bind; [apply absorbing_lift|intros mime].
  apply absorbing_if; [apply absorbing_raise|].
  apply absorbing_bind; [now apply absorbing_requests_get|intros r].
  apply absorbing_bind; [|intros _; apply absorbing_ret].
  unfold raise_for_status.
  apply absorbing_if; [apply absorbing_raise|apply absorbing_ret].
Qed.

Lemma absorbing_message_content (w : Env) (m mtype : json) :
  stable_env w -> absorbing (message_content w m mtype).
Proof.
  intros Hw. unfold message_content.
  apply absorbing_if.
  - apply absorbing_bind; [apply absorbing_lift|intros t].
    apply absorbing_bind; [apply absorbing_lift|intros body].
    apply absorbing_ret.
  - apply absorbing_if; [|apply absorbing_ret].
    apply absorbing_bind; [apply absorbing_lift|intros i]. cbv zeta.
    apply absorbing_bind; [apply absorbing_lift|intros caption].
    apply absorbing_bind; [apply absorbing_lift|intros media_id].
    apply absorbing_if; [|apply absorbing_ret].
    apply absorbing_bind; [now apply absorbing_download_media|].
    intros [data mime]. apply absorbing_ret.
Qed.

Lemma absorbing_ext {A} (c c' : M A) :
  (forall s, c s = c' s) -> absorbing c -> absorbing c'.
Proof.
  intros He Hc s. rewrite <- !He. destruct (Hc s) as [H1 H2].
  split; [exact H1|]. intros s' Hs'. rewrite <- He. now apply H2.
Qed.

Lemma absorbing_lift_bind {A B} (r : result A) (k : A -> M B) :
  (forall a, r = Ok a -> absorbing (k a)) -> absorbing (bind (lift r) k).
Proof.
  intros Hk. destruct r as [a|e].
  - apply absorbing_ext with (c := k a); [reflexivity|now apply Hk].
  - apply absorbing_ext with (c := raise e); [reflexivity|].
    apply absorbing_raise.
Qed.

Lemma absorbing_resolve_msg_time (w : Env) (ts : json) :
  py_truthy ts = true -> absorbing (resolve_msg_time w ts).
Proof.
  intros Ht. unfold resolve_msg_time. rewrite Ht.
  apply absorbing_bind; [apply absorbing_lift|intros n; apply absorbing_lift].
Qed.

Lemma absorbing_process_message (w : Env) (name m : json) :
  stable_env w -> has_timestamp m -> absorbing (process_message w name m).
Proof.
  intros Hw Hts. unfold process_message.
  apply absorbing_bind; [apply absorbing_lift|intros wa_from].
  apply absorbing_lift_bind; intros ts Ets.
  apply absorbing_bind; [apply absorbing_resolve_msg_time; auto|].
  intros msg_time.
  apply absorbing_bind; [apply absorbing_lift|intros mtype].
  apply absorbing_bind; [now apply absorbing_message_content|].
  intros [[text b] mime].
  apply absorbing_bind; [apply absorbing_lift|intros urls].
  apply absorbing_for_each. apply Forall_forall. intros u _.
  now apply absorbing_save_deal.
Qed.

Lemma absorbing_resolve_wa_name (contacts : json) :
  absorbing (resolve_wa_name contacts).
Proof.
  unfold resolve_wa_name. apply absorbing_if; [|apply absorbing_ret].
  apply absorbing_bind; [apply absorbing_lift|intros c0].
  apply absorbing_bind; [apply absorbing_lift|intros p].
  apply absorbing_lift.
Qed.

Lemma absorbing_process_change (w : Env) (ch : json) :
  stable_env w -> Forall has_timestamp (messages_of_change ch) ->
  absorbing (process_change w ch).
Proof.
  intros Hw Hts. unfold process_change. unfold messages_of_change in Hts.
  apply absorbing_lift_bind; intros v Ev. rewrite Ev in Hts. cbv zeta.
  apply absorbing_lift_bind; intros ms Ems. rewrite Ems in Hts.
  apply absorbing_lift_bind; intros cs Ecs.
  apply absorbing_bind; [apply absorbing_resolve_wa_name|intros name].
  apply absorbing_lift_bind; intros items Eit.
  unfold iter_items in Hts. rewrite Eit in Hts.
  apply absorbing_for_each.
  eapply Forall_impl; [|exact Hts]. intros m Hm.
  now apply absorbing_process_message.
Qed.

Lemma absorbing_process_entry (w : Env) (entry : json) :
  stable_env w -> Forall has_timestamp (messages_of_entry entry) ->
  absorbing (process_entry w entry).
Proof.
  intros Hw Hts. unfold process_entry. unfold messages_of_entry in Hts.
  apply absorbing_lift_bind; intros changes Ec. rewrite Ec in Hts.
  apply absorbing_lift_bind; intros items Eit.
  unfold iter_items in Hts. rewrite Eit in Hts.
  apply absorbing_for_each. apply Forall_forall. intros ch Hin.
  apply absorbing_process_change; [exact Hw|].
  apply Forall_forall. intros m Hm.
  rewrite Forall_forall in Hts. apply Hts.
  apply in_flat_map. eauto.
Qed.

Lemma absorbing_process_payload (w : Env) (payload : json) :
  stable_env w -> timestamped payload ->
  absorbing (process_payload w payload).
Proof.
  intros Hw Hts. unfold process_payload.
  unfold timestamped, payload_messages in Hts.
  apply absorbing_lift_bind; intros entries Ee. rewrite Ee in Hts.
  apply absorbing_lift_bind; intros items Eit.
  unfold iter_items in Hts. rewrite Eit in Hts.
  apply absorbing_for_each. apply Forall_forall. intros entry Hin.
  apply absorbing_process_entry; [exact Hw|].
  apply Forall_forall. intros m Hm.
  rewrite Forall_forall in Hts. apply Hts.
  apply in_flat_map. eauto.
Qed.

Lemma timestamped_or_empty (payload : json) :
  timestamped payload -> timestamped (py_or payload (JObj [])).
Proof.
  intros H. unfold py_or. destruct (py_truthy payload); [exact H|].
  constructor.
Qed.

Lemma replay_absorbed (w : Env) (payload : json) (s : State) :
  stable_env w -> timestamped payload ->
  forall n s',
    covered (deals (snd (webhook_receive w (Some payload) s))) (deals s') ->
    deals (replay w payload n s') = deals s'.
Proof.
  intros Hw Hts.
  pose proof (absorbing_process_payload Hw (timestamped_or_empty Hts) s)
    as [_ Habs].
  rewrite <- webhook_receive_state in Habs.
  induction n as [|n IH]; intros s' Hs'; [reflexivity|].
  cbn [replay]. destruct (Habs s' Hs') as [_ Hd].
  rewrite <- webhook_receive_state in Hd.
  rewrite IH; [exact Hd|]. now rewrite Hd.
Qed.

(** C2 (as amended). When every message of the payload carries a truthy
    timestamp and the media API and the database answer the same way at every
    time, delivering the same payload [n >= 1] times leaves exactly the Deals
    of delivering it once, and every delivery is acknowledged with 200. *)
Theorem replay_is_idempotent :
  forall (w : Env) (payload : json) (s : State) (n : nat),
    stable_env w -> timestamped payload -> (1 <= n)%nat ->
    deals (replay w payload n s) = deals (replay w payload 1 s)
    /\ fst (webhook_receive w (Some payload) (replay w payload n s))
       = (lit "ok", 200%Z).
Proof.
  intros w payload s n Hw Hts Hn. split.
  - destruct n as [|n]; [lia|]. cbn [replay].
    apply replay_absorbed with (s := s); auto. apply covered_refl.
  - apply webhook_receive_response.
Qed.


Lemma replay_is_idempotent_witness :
  deals (replay test_env
           (delivery (contact (lit "Ana"))
              [image_message (lit "5511") (lit "1700000000")
                 (lit "confira https://shop.example/x") (lit "media-1");
               text_message (lit "5511") (lit "1700000060")
                 (lit "promo top https://loja.com/p/1")])
           3 empty_state)
  = deals (replay test_env
             (delivery (contact (lit "Ana"))
                [image_message (lit "5511") (lit "1700000000")
                   (lit "confira https://shop.example/x") (lit "media-1");
                 text_message (lit "5511") (lit "1700000060")
                   (lit "promo top https://loja.com/p/1")])
             1 empty_state).
Proof.
  apply (fun Hw Hts Hn =>
           proj1 (@replay_is_idempotent test_env _ empty_state 3 Hw Hts Hn)).
  - split; intros; reflexivity.
  - repeat constructor; intros ts H; vm_compute in H; inversion H;
      reflexivity.
  - lia.
Defined.

(** C2 as stated fails: a message without timestamp takes the current
    time, which enters its fingerprint, so a second delivery of the same
    payload adds a second Deal. *)
Lemma replay_without_timestamp_duplicates :
  length (deals (replay test_env untimed_delivery 1 empty_state)) = 1%nat
  /\ length (deals (replay test_env untimed_delivery 2 empty_state)) = 2%nat
  /\ map url (deals (replay test_env untimed_delivery 2 empty_state))
     = [lit "https://a.example/1"; lit "https://a.example/1"].
Proof. split; [|split]; vm_compute; reflexivity. Qed.

(** ** The scenarios of the specification *)

(** A text message with one link and a contact named Ana: one Deal, with
    that name and link and no image. *)
Example scenario_text_message :
  map (fun d => (wa_from d, wa_name d, url d, image_bytes d, image_mime d))
    (deals_after test_env
       (delivery (contact (lit "Ana"))
          [text_message (lit "5511999990000") (lit "1700000000")
             (lit "promo top https://loja.com/p/1")])
       empty_state)
  = [(JStr (lit "5511999990000"), JStr (lit "Ana"),
      lit "https://loja.com/p/1", None, JNull)].
Proof. vm_compute. reflexivity. Qed.

(** An image message with a link in its caption and a media id that
    resolves: one Deal, with the image and its MIME type. *)
Example scenario_image_message :
  map (fun d => (url d, image_bytes d, image_mime d))
    (deals_after test_env
       (delivery (contact (lit "Ana"))
          [image_message (lit "5511999990000") (lit "1700000000")
             (lit "confira https://shop.example/x") (lit "media-1")])
       empty_state)
  = [(lit "https://shop.example/x", Some [255; 216; 255]%Z,
      JStr (lit "image/jpeg"))].
Proof. vm_compute. reflexivity. Qed.

(** A message without link gives no Deal; a message with three links gives
    three Deals that differ in the link only. *)
Example scenario_link_count :
  deals_after test_env
    (delivery (contact (lit "Ana"))
       [text_message (lit "5511") (lit "1700000000") (lit "bom dia")])
    empty_state = []
  /\ map (fun d => (wa_from d, wa_name d, msg_time d, url d,
                    image_bytes d, image_mime d))
       (deals_after test_env
          (delivery (contact (lit "Ana"))
             [text_message (lit "5511") (lit "1700000000")
                (lit "http://a.example http://b.example http://c.example")])
          empty_state)
     = map (fun u => (JStr (lit "5511"), JStr (lit "Ana"),
                      DT 2023 11 14 22 13 20 0, u, None, JNull))
         [lit "http://a.example"; lit "http://b.example";
          lit "http://c.example"].
Proof. split; vm_compute; reflexivity. Qed.

(* ================================================================== *)
(** * More properties of the code *)

(** ** How a delivery moves the state *)

Lemma reaches_trans (w : Env) (s1 s2 s3 : State) :
  reaches w s1 s2 -> reaches w s2 s3 -> reaches w s1 s3.
Proof.
  intros H12 H23. induction H23 as [|s2 s3 s4 _ IH Hs]; [exact H12|].
  eapply reaches_step; [apply IH; exact H12|exact Hs].
Qed.

Lemma walks_ret (w : Env) {A} (a : A) : walks w (ret a).
Proof. intros s. apply reaches_refl. Qed.

Lemma walks_raise (w : Env) {A} (e : exn) : walks w (@raise A e).
Proof. intros s. apply reaches_refl. Qed.

Lemma walks_lift (w : Env) {A} (r : result A) : walks w (lift r).
Proof. intros s. apply reaches_refl. Qed.

Lemma walks_ask (w : Env) {A} (oracle : nat -> A) : walks w (ask oracle).
Proof.
  intros s. eapply reaches_step; [apply reaches_refl|apply step_ask].
Qed.

Lemma walks_bind (w : Env) {A B} (c : M A) (k : A -> M B) :
  walks w c -> (forall a, walks w (k a)) -> walks w (bind c k).
Proof.
  intros Hc Hk s. rewrite bind_run. specialize (Hc s).
  destruct (c s) as [[a|e] s1]; cbn [snd] in *; [|exact Hc].
  eapply reaches_trans; [exact Hc|apply Hk].
Qed.

Lemma walks_for_each (w : Env) {A} (P : A -> Prop) (l : list A)
      (body : A -> M unit) :
  Forall P l -> (forall a, P a -> walks w (body a)) ->
  walks w (for_each l body).
Proof.
  intros Hl Hb. induction Hl as [|a l Ha Hl IH]; [apply walks_ret|].
  cbn [for_each]. apply walks_bind; [now apply Hb|intros _; exact IH].
Qed.

Lemma walks_loop (w : Env) {A} (l : list A) (body : A -> M unit) :
  (forall a, walks w (body a)) -> walks w (for_each l body).
Proof.
  intros Hb. apply walks_for_each with (P := fun _ => True); [|auto].
  apply Forall_forall. auto.
Qed.

Create HintDb walks.
#[local] Hint Resolve walks_ret walks_raise walks_lift walks_ask : walks.

Ltac walks :=
  repeat first
    [ apply walks_bind; [|intros ?]
    | solve [auto with walks]
    | match goal with
      | |- walks _ (if ?b then _ else _) => destruct b
      | |- walks _ (match ?x with _ => _ end) => destruct x
      end ].

Lemma walks_db_conn (w : Env) : walks w (db_conn w).
Proof. unfold db_conn. walks. Qed.

Lemma walks_requests_get (w : Env) (url : json) (auth : pystr) (timeout : Z) :
  walks w (requests_get w url auth timeout).
Proof. unfold requests_get. walks. Qed.

Lemma walks_raise_for_status (w : Env) (r : response) :
  walks w (raise_for_status r).
Proof. unfold raise_for_status. walks. Qed.

Lemma walks_response_json (w : Env) (r : response) : walks w (response_json r).
Proof. unfold response_json. walks. Qed.

#[local] Hint Resolve walks_db_conn walks_requests_get walks_raise_for_status
  walks_response_json : walks.

Lemma walks_download_media (w : Env) (media_id : json) :
  walks w (download_media w media_id).
Proof. unfold download_media. walks. Qed.

Lemma walks_resolve_msg_time (w : Env) (ts : json) :
  walks w (resolve_msg_time w ts).
Proof. unfold resolve_msg_time. walks. Qed.

Lemma walks_resolve_wa_name (w : Env) (contacts : json) :
  walks w (resolve_wa_name contacts).
Proof. unfold resolve_wa_name. walks. Qed.

#[local] Hint Resolve walks_download_media walks_resolve_msg_time
  walks_resolve_wa_name : walks.

Lemma walks_message_content (w : Env) (m mtype : json) :
  walks w (message_content w m mtype).
Proof. unfold message_content. walks. Qed.

Lemma walks_save_deal (w : Env) f n t u b m :
  link_shaped u -> walks w (save_deal w f n t u b m).
Proof.
  intros Hu s. rewrite save_deal_run.
  destruct (fingerprint w f n t u) as [h|e] eqn:Eh; [|apply reaches_refl].
  destruct (is_empty (DATABASE_URL w)) eqn:Ed; [apply reaches_refl|].
  cbv zeta.
  assert (Ha : reaches w s (mkState (deals s) (next_id s) (S (tick s))))
    by (eapply reaches_step; [apply reaches_refl|apply step_ask]).
  destruct (db_connect w (tick s)); [|exact Ha].
  eapply reaches_step; [exact Ha|]. now apply step_insert.
Qed.

(** The links [URL_RE.findall] returns are link-shaped. *)
Lemma URL_RE_findall_shaped (x : json) (urls : list pystr) :
  URL_RE_findall x = Ok urls -> Forall link_shaped urls.
Proof.
  destruct x; try discriminate. cbn. intros H. injection H as <-.
  rewrite findall_extract_links. apply extract_links_shaped.
Qed.

Lemma walks_process_message (w : Env) (name m : json) :
  walks w (process_message w name m).
Proof.
  unfold process_message.
  apply walks_bind; [apply walks_lift|intros wa_from].
  apply walks_bind; [apply walks_lift|intros ts].
  apply walks_bind; [apply walks_resolve_msg_time|intros msg_time].
  apply walks_bind; [apply walks_lift|intros mtype].
  apply walks_bind; [apply walks_message_content|intros [[text b] mime]].
  destruct (URL_RE_findall (py_or text (JStr []))) as [urls|e] eqn:E.
  - intros s. rewrite bind_lift_Ok. revert s.
    apply walks_for_each with (P := link_shaped).
    + eapply URL_RE_findall_shaped; eauto.
    + intros u Hu. now apply walks_save_deal.
  - intros s. apply reaches_refl.
Qed.

Lemma walks_process_change (w : Env) (ch : json) :
  walks w (process_change w ch).
Proof.
  unfold process_change.
  apply walks_bind; [apply walks_lift|intros v].
  apply walks_bind; [apply walks_lift|intros ms].
  apply walks_bind; [apply walks_lift|intros cs].
  apply walks_bind; [apply walks_resolve_wa_name|intros name].
  apply walks_bind; [apply walks_lift|intros items].
  apply walks_loop. intros m. apply walks_process_message.
Qed.

Lemma walks_process_payload (w : Env) (payload : json) :
  walks w (process_payload w payload).
Proof.
  unfold process_payload.
  apply walks_bind; [apply walks_lift|intros entries].
  apply walks_bind; [apply walks_lift|intros items].
  apply walks_loop. intros entry. unfold process_entry.
  apply walks_bind; [apply walks_lift|intros changes].
  apply walks_bind; [apply walks_lift|intros chs].
  apply walks_loop. apply walks_process_change.
Qed.

(** A delivery moves the state by interactions and inserts of links. *)
Lemma delivery_reaches (w : Env) (parsed : option json) (s : State) :
  reaches w s (snd (webhook_receive w parsed s)).
Proof.
  unfold webhook_receive.
  pose proof (@walks_process_payload w
    (py_or match parsed with Some j => j | None => JNull end (JObj [])) s)
    as H.
  destruct (process_payload w _ s) as [[x|e] s']; exact H.
Qed.

(** An invariant of the steps is an invariant of the deliveries. *)
Lemma reaches_invariant (w : Env) (I : State -> Prop) :
  (forall s s', step w s s' -> I s -> I s') ->
  forall s s', reaches w s s' -> I s -> I s'.
Proof.
  intros Hstep s s' Hr Hs. induction Hr as [|s1 s2 s3 _ IH H23]; [exact Hs|].
  eapply Hstep; [exact H23|]. now apply IH.
Qed.

(** The state after the insert of a step. *)
Lemma insert_deal_state (w : Env) f n t u h b m (s : State) :
  snd (insert_deal w f n t u h b m s) = s
  \/ snd (insert_deal w f n t u h b m s)
     = mkState (if has_hash h (deals s) then deals s
                else deals s ++ [mkDeal (next_id s) f n t u h b m
                                        (db_now w (tick s))])
               (next_id s + 1) (tick s).
Proof.
  unfold insert_deal. destruct (db_accepts w f n t u h b m); cbn [snd]; auto.
Qed.

Lemma has_hash_false (h : pystr) (rows : list Deal) :
  has_hash h rows = false -> ~ In h (map url_hash rows).
Proof.
  unfold has_hash. intros H Hin. apply in_map_iff in Hin.
  destruct Hin as [d [Hd Hin]].
  assert (E : existsb (fun d => pystr_eqb (url_hash d) h) rows = true).
  { apply existsb_exists. exists d. split; [exact Hin|].
    rewrite Hd. apply pystr_eqb_refl. }
  congruence.
Qed.

Lemma NoDup_snoc {A} (l : list A) (x : A) :
  NoDup l -> ~ In x l -> NoDup (l ++ [x]).
Proof.
  intros Hl Hx. induction Hl as [|y l Hy Hl IH]; cbn.
  - constructor; [intros []|constructor].
  - constructor.
    + rewrite in_app_iff. cbn. intros [H|[H|[]]]; [contradiction|].
      apply Hx. left. congruence.
    + apply IH. intros H. apply Hx. now right.
Qed.

(** ** Invariants of the table *)

(** X1. The fingerprints of the table stay pairwise distinct over every
    delivery: an insert whose fingerprint is in the table adds no row. *)
Theorem delivery_keeps_fingerprints_unique :
  forall (w : Env) (parsed : option json) (s : State),
    unique_hashes (deals s) ->
    unique_hashes (deals (snd (webhook_receive w parsed s))).
Proof.
  intros w parsed s.
  apply (@reaches_invariant w (fun s => unique_hashes (deals s)));
    [|apply delivery_reaches].
  clear. intros s s' Hstep Hs. destruct Hstep as [s|s f n t u h b m Hdb Hu Hh].
  - exact Hs.
  - destruct (insert_deal_state w f n t u h (binary_or_null b) m s) as [->| ->];
      [exact Hs|].
    cbn [deals]. destruct (has_hash h (deals s)) eqn:E; [exact Hs|].
    unfold unique_hashes. rewrite map_app. cbn [map url_hash].
    apply NoDup_snoc; [exact Hs|now apply has_hash_false].
Qed.

Lemma delivery_keeps_fingerprints_unique_witness :
  unique_hashes
    (deals (snd (webhook_receive test_env
       (Some (delivery (contact (lit "Ana"))
          [text_message (lit "5511") (lit "1700000000")
             (lit "http://a.example http://a.example http://b.example")]))
       empty_state))).
Proof.
  apply delivery_keeps_fingerprints_unique. constructor.
Defined.

(** X2. A delivery only appends: the rows of the table before it are the
    first rows of the table after it, unchanged and in the same order. *)
Theorem delivery_only_appends :
  forall (w : Env) (parsed : option json) (s : State),
    exists added,
      deals (snd (webhook_receive w parsed s)) = deals s ++ added.
Proof.
  intros w parsed s.
  pose proof (delivery_reaches w parsed s) as Hr.
  induction Hr as [s|s1 s2 s3 _ [added IH] Hstep].
  - exists []. now rewrite app_nil_r.
  - destruct Hstep as [s2|s2 f n t u h b m Hdb Hu Hh].
    + exists added. exact IH.
    + destruct (insert_deal_state w f n t u h (binary_or_null b) m s2)
        as [->| ->]; [now exists added|].
      cbn [deals]. destruct (has_hash h (deals s2)); [now exists added|].
      rewrite IH, <- app_assoc. eauto.
Qed.

(** X3. The ids of the table stay pairwise distinct and below the sequence
    over every delivery, and the sequence never goes back. *)
Theorem delivery_keeps_ids_fresh :
  forall (w : Env) (parsed : option json) (s : State),
    fresh_ids s ->
    fresh_ids (snd (webhook_receive w parsed s))
    /\ (next_id s <= next_id (snd (webhook_receive w parsed s)))%Z.
Proof.
  intros w parsed s Hs.
  pose proof (delivery_reaches w parsed s) as Hr.
  induction Hr as [s|s1 s2 s3 _ IH Hstep]; [split; [exact Hs|lia]|].
  destruct (IH Hs) as [[Hnd Hlt] Hle]. clear IH.
  destruct Hstep as [s2|s2 f n t u h b m Hdb Hu Hh]; [now split|].
  destruct (insert_deal_state w f n t u h (binary_or_null b) m s2)
    as [->| ->]; [now split|].
  unfold fresh_ids. cbn [deals next_id].
  assert (Hlt' : Forall (fun d => (id d < next_id s2 + 1)%Z) (deals s2)).
  { eapply Forall_impl; [|exact Hlt]. cbn. intros d Hd. lia. }
  destruct (has_hash h (deals s2)).
  - split; [split; assumption|lia].
  - split; [split|lia].
    + rewrite map_app. cbn [map id]. apply NoDup_snoc; [exact Hnd|].
      intros Hin. apply in_map_iff in Hin. destruct Hin as [d [Hd Hin]].
      rewrite Forall_forall in Hlt. specialize (Hlt d Hin). lia.
    + apply Forall_app. split; [exact Hlt'|].
      constructor; [cbn [id]; lia|constructor].
Qed.

Lemma delivery_keeps_ids_fresh_witness :
  fresh_ids (snd (webhook_receive test_env
     (Some (delivery (contact (lit "Ana"))
        [text_message (lit "5511") (lit "1700000000")
           (lit "http://a.example http://a.example http://b.example")]))
     empty_state))
  /\ (next_id empty_state
      <= next_id (snd (webhook_receive test_env
           (Some (delivery (contact (lit "Ana"))
              [text_message (lit "5511") (lit "1700000000")
                 (lit "http://a.example http://a.example http://b.example")]))
           empty_state)))%Z.
Proof.
  apply delivery_keeps_ids_fresh. split; constructor.
Defined.

Lemma Forall_snoc {A} (P : A -> Prop) (l : list A) (x : A) :
  Forall P l -> P x -> Forall P (l ++ [x]).
Proof. intros Hl Hx. apply Forall_app. split; [exact Hl|]. now constructor. Qed.

(** A property of the rows that every inserted row has is an invariant of
    the deliveries. *)
Lemma delivery_rows (w : Env) (P : Deal -> Prop) :
  (forall i f n t u h b m c,
      link_shaped u -> fingerprint w f n t u = Ok h ->
      P (mkDeal i f n t u h (binary_or_null b) m c)) ->
  forall parsed s,
    Forall P (deals s) -> Forall P (deals (snd (webhook_receive w parsed s))).
Proof.
  intros HP parsed s.
  apply (@reaches_invariant w (fun s => Forall P (deals s)));
    [|apply delivery_reaches].
  clear parsed s. intros s s' Hstep Hs.
  destruct Hstep as [s|s f n t u h b m Hdb Hu Hh]; [exact Hs|].
  destruct (insert_deal_state w f n t u h (binary_or_null b) m s) as [->| ->];
    [exact Hs|].
  cbn [deals]. destruct (has_hash h (deals s)); [exact Hs|].
  apply Forall_snoc; [exact Hs|]. now apply HP.
Qed.



Lemma binary_or_null_not_empty (b : option bytes) :
  binary_or_null b <> Some [].
Proof. destruct b as [[|x l]|]; discriminate. Qed.

(** X5. Over every delivery, the [url] of each row stays link-shaped (a
    scheme [http://] or [https://], at least one more character, no
    terminator) and no row holds an empty image: empty content is stored
    as NULL. *)
Theorem delivery_stores_links_and_no_empty_image :
  forall (w : Env) (parsed : option json) (s : State),
    Forall (fun d => link_shaped (url d) /\ image_bytes d <> Some [])
           (deals s) ->
    Forall (fun d => link_shaped (url d) /\ image_bytes d <> Some [])
           (deals (snd (webhook_receive w parsed s))).
Proof.
  intros w. apply delivery_rows.
  intros i f n t u h b m c Hu _. cbn [url image_bytes].
  split; [exact Hu|apply binary_or_null_not_empty].
Qed.

Lemma delivery_stores_links_and_no_empty_image_witness :
  Forall (fun d => link_shaped (url d) /\ image_bytes d <> Some [])
    (deals (snd (webhook_receive test_env
       (Some (delivery (contact (lit "Ana"))
          [image_message (lit "5511") (lit "1700000000")
             (lit "confira https://shop.example/x") (lit "media-empty")]))
       empty_state))).
Proof.
  apply delivery_stores_links_and_no_empty_image. constructor.
Defined.



(** X7. A conflict is not an error: what [save_deal] returns or raises
    does not depend on the rows of the table, and a save whose fingerprint
    is stored leaves the table as it is. *)
Theorem save_deal_outcome_ignores_the_table :
  forall (w : Env) (f n : json) (t : datetime) (u : pystr)
         (b : option bytes) (m : json) (s1 s2 : State),
    tick s1 = tick s2 ->
    fst (save_deal w f n t u b m s1) = fst (save_deal w f n t u b m s2)
    /\ (forall h, fingerprint w f n t u = Ok h ->
                  has_hash h (deals s1) = true ->
                  deals (snd (save_deal w f n t u b m s1)) = deals s1).
Proof.
  intros w f n t u b m s1 s2 Ht. split.
  - rewrite !save_deal_run.
    destruct (fingerprint w f n t u) as [h|e]; [|reflexivity].
    destruct (is_empty (DATABASE_URL w)); [reflexivity|].
    cbv zeta. rewrite Ht. destruct (db_connect w (tick s2)); [|reflexivity].
    unfold insert_deal.
    destruct (db_accepts w f n t u h (binary_or_null b) m); reflexivity.
  - intros h Hf Hh. eapply save_deal_present; eauto.
Qed.

Lemma save_deal_outcome_ignores_the_table_witness :
  fst (save_deal test_env (JStr (lit "5511")) JNull (DT 2023 11 14 22 13 20 0)
         (lit "https://loja.com/p/1") None JNull empty_state)
  = fst (save_deal test_env (JStr (lit "5511")) JNull
           (DT 2023 11 14 22 13 20 0) (lit "https://loja.com/p/1") None JNull
           (mkState
              [mkDeal 1 JNull JNull (DT 2023 11 14 22 13 20 0) [] [] None
                      JNull (DT 2023 11 14 22 13 20 0)] 2 0)).
Proof.
  apply save_deal_outcome_ignores_the_table. reflexivity.
Defined.

(** ** [download_media] *)

(** X8. Without a [WHATSAPP_TOKEN], [download_media] raises
    [RuntimeError] before any request is made: the state, its clock
    included, is left as it was. *)
Theorem download_media_without_token :
  forall (w : Env) (media_id : json) (s : State),
    is_empty (WHATSAPP_TOKEN w) = true ->
    download_media w media_id s = (Raise RuntimeError, s).
Proof.
  intros w media_id s Ht. unfold download_media. now rewrite Ht.
Qed.

Lemma download_media_without_token_witness :
  download_media
    (mkEnv (lit "change-me") [] (lit "v20.0") (lit "postgresql://db")
           4300 (fun _ => lit "?") test_clock test_http (fun _ => true)
           (fun _ _ _ _ _ _ _ => true) test_clock)
    (JStr (lit "media-1")) empty_state
  = (Raise RuntimeError, empty_state).
Proof.
  apply download_media_without_token. reflexivity.
Defined.

Lemma requests_get_run (w : Env) (url : json) (auth : pystr) (timeout : Z)
      (s : State) :
  requests_get w url auth timeout s
  = (http_get w (tick s) url auth timeout,
     mkState (deals s) (next_id s) (S (tick s))).
Proof.
  unfold requests_get. rewrite bind_run. cbn.
  now destruct (http_get w (tick s) url auth timeout).
Qed.

(** The status [raise_for_status] lets through. *)
Lemma raise_for_status_run (r : response) (s : State) :
  raise_for_status r s
  = (if (400 <=? status_code r)%Z && (status_code r <? 600)%Z
     then Raise HTTPError else Ok tt, s).
Proof.
  unfold raise_for_status.
  now destruct ((400 <=? status_code r)%Z && (status_code r <? 600)%Z).
Qed.

(** X9. A media download that succeeds made exactly two requests, both
    with the bearer token: the first, with a timeout of 25, to the Graph
    address of the media id; the second, with a timeout of 40, to the
    address the first answer names.  Neither answer has a status from 400
    to 599; the content is the body of the second answer; the MIME type is
    the one of the first answer, or [application/octet-stream] when the
    answer has no [mime_type] key.  The table and the sequence are left as
    they were. *)
Theorem download_media_success :
  forall (w : Env) (media_id : json) (s s' : State) (data : bytes)
         (mime : json),
    download_media w media_id s = (Ok (data, mime), s') ->
    let auth := lit "Bearer " ++ WHATSAPP_TOKEN w in
    exists meta j media_url r,
      http_get w (tick s)
               (JStr (lit "https://graph.facebook.com/"
                      ++ GRAPH_API_VERSION w ++ lit "/"
                      ++ py_format (py_repr w) media_id)) auth 25 = Ok meta
      /\ ((400 <=? status_code meta) && (status_code meta <? 600))%Z = false
      /\ json_body meta = Some j
      /\ py_get j (lit "url") JNull = Ok media_url
      /\ py_truthy media_url = true
      /\ http_get w (S (tick s)) media_url auth 40 = Ok r
      /\ ((400 <=? status_code r) && (status_code r <? 600))%Z = false
      /\ data = content r
      /\ py_get j (lit "mime_type") (JStr (lit "application/octet-stream"))
         = Ok mime
      /\ s' = mkState (deals s) (next_id s) (S (S (tick s))).
Proof.
  intros w media_id s s' data mime. unfold download_media.
  destruct (is_empty (WHATSAPP_TOKEN w)); [discriminate|].
  rewrite bind_run, requests_get_run.
  destruct (http_get w (tick s) _ _ 25) as [meta|e] eqn:Em; [|discriminate].
  rewrite bind_run, raise_for_status_run.
  destruct ((400 <=? status_code meta)%Z && (status_code meta <? 600)%Z)
    eqn:Es; [discriminate|].
  rewrite bind_run. unfold response_json.
  destruct (json_body meta) as [j|] eqn:Ej; [|discriminate].
  unfold ret at 1. rewrite bind_run. unfold lift at 1.
  destruct (py_get j (lit "url") JNull) as [media_url|e] eqn:Eu;
    [|discriminate].
  rewrite bind_run. unfold lift at 1.
  destruct (py_get j (lit "mime_type") _) as [mime'|e] eqn:Ei;
    [|discriminate].
  destruct (py_truthy media_url) eqn:Et; cbn [negb]; [|discriminate].
  rewrite bind_run, requests_get_run. cbn [tick deals next_id].
  destruct (http_get w (S (tick s)) media_url _ 40) as [r|e] eqn:Er;
    [|discriminate].
  rewrite bind_run, raise_for_status_run.
  destruct ((400 <=? status_code r)%Z && (status_code r <? 600)%Z) eqn:Es2;
    [discriminate|].
  unfold ret. intros H. inversion H; subst; clear H.
  exists meta, j, media_url, r. cbn zeta. repeat split; assumption.
Qed.

Lemma download_media_success_witness :
  exists meta j media_url r,
    http_get test_env 0
             (JStr (lit "https://graph.facebook.com/"
                    ++ GRAPH_API_VERSION test_env ++ lit "/"
                    ++ py_format (py_repr test_env) (JStr (lit "media-1"))))
             (lit "Bearer " ++ WHATSAPP_TOKEN test_env) 25 = Ok meta
    /\ ((400 <=? status_code meta) && (status_code meta <? 600))%Z = false
    /\ json_body meta = Some j
    /\ py_get j (lit "url") JNull = Ok media_url
    /\ py_truthy media_url = true
    /\ http_get test_env 1 media_url
                (lit "Bearer " ++ WHATSAPP_TOKEN test_env) 40 = Ok r
    /\ ((400 <=? status_code r) && (status_code r <? 600))%Z = false
    /\ [255; 216; 255]%Z = content r
    /\ py_get j (lit "mime_type") (JStr (lit "application/octet-stream"))
       = Ok (JStr (lit "image/jpeg"))
    /\ mkState [] 1 2 = mkState (deals empty_state) (next_id empty_state) 2.
Proof.
  apply (@download_media_success test_env (JStr (lit "media-1")) empty_state
           (mkState [] 1 2) [255; 216; 255]%Z (JStr (lit "image/jpeg"))).
  vm_compute. reflexivity.
Defined.

(** The run of [download_media]: its outcome and its clock. *)
Lemma download_media_run (w : Env) (media_id : json) (s : State) :
  exists r t,
    download_media w media_id s = (r, mkState (deals s) (next_id s) t)
    /\ (tick s <= t <= tick s + 2)%nat
    /\ (forall meta,
          is_empty (WHATSAPP_TOKEN w) = false ->
          http_get w (tick s)
                   (JStr (lit "https://graph.facebook.com/"
                          ++ GRAPH_API_VERSION w ++ lit "/"
                          ++ py_format (py_repr w) media_id))
                   (lit "Bearer " ++ WHATSAPP_TOKEN w) 25 = Ok meta ->
          ((400 <=? status_code meta) && (status_code meta <? 600))%Z = true ->
          r = Raise HTTPError /\ t = S (tick s)).
Proof.
  unfold download_media.
  destruct (is_empty (WHATSAPP_TOKEN w)).
  { exists (Raise RuntimeError), (tick s). destruct s. cbn.
    repeat split; try lia; discriminate. }
  rewrite bind_run, requests_get_run.
  destruct (http_get w (tick s) _ _ 25) as [meta|e] eqn:Em.
  2:{ eexists _, _. split; [reflexivity|]. split; [lia|]. discriminate. }
  rewrite bind_run, raise_for_status_run.
  destruct ((400 <=? status_code meta)%Z && (status_code meta <? 600)%Z)
    eqn:Es.
  { eexists _, _. split; [reflexivity|]. split; [lia|]. auto. }
  assert (Hlast : forall (r : result (bytes * json)) (t : nat)
                         (meta0 : response),
             false = false -> Ok meta = Ok meta0 ->
             ((400 <=? status_code meta0)%Z && (status_code meta0 <? 600)%Z)
             = true -> r = Raise HTTPError /\ t = S (tick s)).
  { intros r t meta0 _ H H0. injection H as <-. congruence. }
  rewrite bind_run. unfold response_json.
  destruct (json_body meta) as [j|].
  2:{ eexists _, _. split; [reflexivity|]. split; [lia|]. apply Hlast. }
  unfold ret at 1. rewrite bind_run. unfold lift at 1.
  destruct (py_get j (lit "url") JNull) as [media_url|e].
  2:{ eexists _, _. split; [reflexivity|]. split; [lia|]. apply Hlast. }
  rewrite bind_run. unfold lift at 1.
  destruct (py_get j (lit "mime_type") _) as [mime'|e].
  2:{ eexists _, _. split; [reflexivity|]. split; [lia|]. apply Hlast. }
  destruct (py_truthy media_url); cbn [negb].
  2:{ eexists _, _. split; [reflexivity|]. split; [lia|]. apply Hlast. }
  rewrite bind_run, requests_get_run. cbn [tick deals next_id].
  destruct (http_get w (S (tick s)) media_url _ 40) as [r|e].
  2:{ eexists _, _. split; [reflexivity|]. split; [lia|]. apply Hlast. }
  rewrite bind_run, raise_for_status_run.
  destruct ((400 <=? status_code r)%Z && (status_code r <? 600)%Z);
    (eexists _, _; split; [reflexivity|]; split; [lia|]; apply Hlast).
Qed.

(** X10. Whatever its outcome, [download_media] makes at most two
    requests and touches neither the table nor the sequence; when the first
    answer has a status from 400 to 599 it raises [HTTPError] and the second
    request is not made. *)
Theorem download_media_requests :
  forall (w : Env) (media_id : json) (s : State),
    let s' := snd (download_media w media_id s) in
    deals s' = deals s /\ next_id s' = next_id s
    /\ (tick s <= tick s' <= tick s + 2)%nat
    /\ (forall meta,
          is_empty (WHATSAPP_TOKEN w) = false ->
          http_get w (tick s)
                   (JStr (lit "https://graph.facebook.com/"
                          ++ GRAPH_API_VERSION w ++ lit "/"
                          ++ py_format (py_repr w) media_id))
                   (lit "Bearer " ++ WHATSAPP_TOKEN w) 25 = Ok meta ->
          ((400 <=? status_code meta) && (status_code meta <? 600))%Z = true ->
          download_media w media_id s
          = (Raise HTTPError, mkState (deals s) (next_id s) (S (tick s)))).
Proof.
  intros w media_id s. cbv zeta.
  destruct (download_media_run w media_id s) as [r [t [-> [Ht Hm]]]].
  cbn [snd deals next_id tick]. repeat split; try lia.
  intros meta H1 H2 H3. destruct (Hm meta H1 H2 H3) as [-> ->]. reflexivity.
Qed.

Lemma download_media_requests_witness :
  download_media test_env (JStr (lit "missing")) empty_state
  = (Raise HTTPError,
     mkState (deals empty_state) (next_id empty_state) 1).
Proof.
  apply (proj2 (proj2 (proj2
           (download_media_requests test_env (JStr (lit "missing"))
              empty_state)))
           (Response 404 [] None)); vm_compute; reflexivity.
Defined.

(** ** The rows of a message *)

Lemma sublist_nil_l {A} (l : list A) : sublist [] l.
Proof. induction l; constructor; assumption. Qed.

Lemma sublist_app {A} (a b a' b' : list A) :
  sublist a b -> sublist a' b' -> sublist (a ++ a') (b ++ b').
Proof.
  intros H H'. induction H; cbn; [exact H'| |]; constructor; assumption.
Qed.

(** What [save_deal] adds: nothing, or one row with its arguments. *)
Lemma save_deal_rows (w : Env) f n t u b m (s : State) :
  exists added,
    deals (snd (save_deal w f n t u b m s)) = deals s ++ added
    /\ sublist (map url added) [u]
    /\ Forall (of_message f n t (binary_or_null b) m) added.
Proof.
  rewrite save_deal_run.
  assert (Hnone : forall s' : State, deals s' = deals s ->
            exists added, deals s' = deals s ++ added
              /\ sublist (map url added) [u]
              /\ Forall (of_message f n t (binary_or_null b) m) added).
  { intros s' E. exists []. rewrite app_nil_r.
    split; [exact E|]. split; [apply sublist_nil_l|constructor]. }
  destruct (fingerprint w f n t u) as [h|e]; [|now apply Hnone].
  destruct (is_empty (DATABASE_URL w)); [now apply Hnone|].
  cbv zeta. destruct (db_connect w (tick s)); [|now apply Hnone].
  unfold insert_deal.
  destruct (db_accepts w f n t u h (binary_or_null b) m); [|now apply Hnone].
  cbn [snd deals next_id tick].
  destruct (has_hash h (deals s)); [now apply Hnone|].
  eexists [_]. split; [reflexivity|]. cbn [map url].
  split; [apply sublist_keep, sublist_nil|]. constructor; [|constructor].
  repeat split.
Qed.

(** What the loop over the links of a message adds. *)
Lemma save_links_rows (w : Env) f n t b m (urls : list pystr) (s : State) :
  exists added,
    deals (snd (for_each urls (fun u => save_deal w f n t u b m) s))
    = deals s ++ added
    /\ sublist (map url added) urls
    /\ Forall (of_message f n t (binary_or_null b) m) added.
Proof.
  revert s. induction urls as [|u urls IH]; intros s.
  - exists []. cbn. rewrite app_nil_r.
    split; [reflexivity|]. split; constructor.
  - cbn [for_each]. rewrite bind_run.
    destruct (save_deal_rows w f n t u b m s) as [a1 [E1 [S1 F1]]].
    destruct (save_deal w f n t u b m s) as [[[]|e] s1]; cbn [snd] in E1 |- *.
    + destruct (IH s1) as [a2 [E2 [S2 F2]]].
      exists (a1 ++ a2). rewrite E2, E1, app_assoc.
      split; [reflexivity|]. split.
      * rewrite map_app. apply (sublist_app S1 S2).
      * apply Forall_app. now split.
    + exists a1. split; [exact E1|]. split.
      * rewrite <- (app_nil_r (map url a1)).
        apply (sublist_app S1 (sublist_nil_l urls)).
      * exact F1.
Qed.

(** X11. The rows a message adds: when its sender, its time and its
    content (text, media) are resolved, the message appends rows whose links
    are links of its text, in the order of the text, each at most once per
    occurrence; all of them carry the sender of the message, the contact
    name of the block, the time of the message and the same media, an empty
    image being stored as NULL. *)
Theorem message_rows_share_its_columns :
  forall (w : Env) (name m f ts mtype text mime : json) (t : datetime)
         (b : option bytes) (body : pystr) (s s1 s2 : State),
    py_get m (lit "from") JNull = Ok f ->
    py_get m (lit "timestamp") JNull = Ok ts ->
    resolve_msg_time w ts s = (Ok t, s1) ->
    py_get m (lit "type") JNull = Ok mtype ->
    message_content w m mtype s1 = (Ok (text, b, mime), s2) ->
    py_or text (JStr []) = JStr body ->
    exists added,
      deals (snd (process_message w name m s)) = deals s ++ added
      /\ sublist (map url added) (findall URL_RE body)
      /\ Forall (of_message f name t (binary_or_null b) mime) added.
Proof.
  intros w name m f ts mtype text mime t b body s s1 s2
         Hf Hts Ht Hty Hc Hbody.
  unfold process_message.
  rewrite bind_run, Hf. cbn [lift].
  rewrite bind_run, Hts. cbn [lift].
  rewrite bind_run, Ht.
  rewrite bind_run, Hty. cbn [lift].
  rewrite bind_run, Hc.
  rewrite Hbody. cbn [URL_RE_findall]. rewrite bind_lift_Ok.
  destruct (save_links_rows w f name t b mime (findall URL_RE body) s2)
    as [added [E H]].
  exists added. split; [|exact H].
  rewrite E. f_equal.
  pose proof (@keeps_resolve_msg_time w ts s) as K1. rewrite Ht in K1.
  pose proof (@keeps_message_content w m mtype s1) as K2. rewrite Hc in K2.
  cbn [snd] in K1, K2. congruence.
Qed.

Lemma message_rows_share_its_columns_witness :
  exists added,
    deals (snd (process_message jpeg_env (JStr (lit "Ana"))
                  (image_message (lit "5511") (lit "1700000000")
                     (lit "a https://x.example/1 b https://x.example/2")
                     (lit "media-1"))
                  empty_state))
    = deals empty_state ++ added
    /\ sublist (map url added)
         (findall URL_RE (lit "a https://x.example/1 b https://x.example/2"))
    /\ Forall (of_message (JStr (lit "5511")) (JStr (lit "Ana"))
                 (DT 2023 11 14 22 13 20 0)
                 (binary_or_null (Some [255; 216; 255]%Z))
                 (JStr (lit "image/jpeg"))) added.
Proof.
  apply (@message_rows_share_its_columns jpeg_env (JStr (lit "Ana"))
           (image_message (lit "5511") (lit "1700000000")
              (lit "a https://x.example/1 b https://x.example/2")
              (lit "media-1"))
           (JStr (lit "5511")) (JStr (lit "1700000000"))
           (JStr (lit "image"))
           (JStr (lit "a https://x.example/1 b https://x.example/2"))
           (JStr (lit "image/jpeg")) (DT 2023 11 14 22 13 20 0)
           (Some [255; 216; 255]%Z)
           (lit "a https://x.example/1 b https://x.example/2")
           empty_state empty_state (mkState [] 1 2));
    vm_compute; reflexivity.
Defined.

(** X12. Only an image message reaches the media API: for a message of
    any other type the content is resolved without any interaction (the
    state, its clock included, is left as it was) and carries no media; and
    a message whose type is neither [text] nor [image] adds no row. *)
Theorem only_image_messages_fetch_media :
  forall (w : Env) (name m mtype : json) (s : State),
    py_eq_str mtype (lit "image") = false ->
    snd (message_content w m mtype s) = s
    /\ (forall text b mime,
          fst (message_content w m mtype s) = Ok (text, b, mime) ->
          b = None /\ mime = JNull)
    /\ (py_get m (lit "type") JNull = Ok mtype ->
        py_eq_str mtype (lit "text") = false ->
        deals (snd (process_message w name m s)) = deals s).
Proof.
  intros w name m mtype s Hi. unfold message_content. rewrite Hi.
  destruct (py_eq_str mtype (lit "text")) eqn:Ht.
  - rewrite !bind_run. unfold lift.
    destruct (py_get m (lit "text") JNull) as [tx|e].
    + rewrite bind_run.
      destruct (py_get (py_or tx (JObj [])) (lit "body") JNull) as [bd|e].
      * cbn. split; [reflexivity|]. split; [|discriminate].
        intros text b mime H. now inversion H.
      * cbn. split; [reflexivity|]. split; discriminate.
    + cbn. split; [reflexivity|]. split; discriminate.
  - cbn [ret fst snd]. split; [reflexivity|].
    split; [intros text b mime H; now inversion H|].
    intros Hty _. unfold process_message.
    apply keeps_bind; [apply keeps_lift|intros f].
    apply keeps_bind; [apply keeps_lift|intros ts].
    apply keeps_bind; [apply keeps_resolve_msg_time|intros t].
    rewrite Hty. intros s1. rewrite bind_lift_Ok.
    unfold message_content. rewrite Hi, Ht. reflexivity.
Qed.

Lemma only_image_messages_fetch_media_witness :
  deals (snd (process_message test_env JNull
                (JObj [(lit "from", JStr (lit "5511"));
                       (lit "type", JStr (lit "sticker"));
                       (lit "text",
                        JObj [(lit "body",
                               JStr (lit "https://loja.com/p/1"))])])
                empty_state)) = deals empty_state.
Proof.
  apply (proj2 (proj2
    (@only_image_messages_fetch_media test_env JNull
       (JObj [(lit "from", JStr (lit "5511"));
              (lit "type", JStr (lit "sticker"));
              (lit "text",
               JObj [(lit "body", JStr (lit "https://loja.com/p/1"))])])
       (JStr (lit "sticker")) empty_state eq_refl))); reflexivity.
Defined.

(** ** The contact name of a block *)

Lemma appends_keeps (P : Deal -> Prop) {A} (c : M A) :
  keeps_deals c -> appends P c.
Proof.
  intros Hk s. exists []. rewrite app_nil_r. split; [apply Hk|constructor].
Qed.

Lemma appends_bind (P : Deal -> Prop) {A B} (c : M A) (k : A -> M B) :
  appends P c -> (forall a, appends P (k a)) -> appends P (bind c k).
Proof.
  intros Hc Hk s. rewrite bind_run. destruct (Hc s) as [a1 [E1 F1]].
  destruct (c s) as [[a|e] s1]; cbn [snd] in *; [|eauto].
  destruct (Hk a s1) as [a2 [E2 F2]]. exists (a1 ++ a2).
  rewrite E2, E1, app_assoc. split; [reflexivity|].
  apply Forall_app. now split.
Qed.

Lemma appends_for_each (P : Deal -> Prop) {A} (l : list A)
      (body : A -> M unit) :
  (forall a, appends P (body a)) -> appends P (for_each l body).
Proof.
  intros Hb. induction l as [|a l IH].
  - apply appends_keeps, keeps_ret.
  - cbn [for_each]. apply appends_bind; [apply Hb|intros _; exact IH].
Qed.

Lemma appends_lift_bind (P : Deal -> Prop) {A B} (r : result A)
      (k : A -> M B) :
  (forall a, appends P (k a)) -> appends P (bind (lift r) k).
Proof.
  intros Hk. apply appends_bind; [|exact Hk]. apply appends_keeps, keeps_lift.
Qed.

(** Every row a message adds carries the contact name it is processed
    with. *)
Lemma process_message_named (w : Env) (name m : json) :
  appends (fun d => wa_name d = name) (process_message w name m).
Proof.
  unfold process_message.
  apply appends_lift_bind; intros f.
  apply appends_lift_bind; intros ts.
  apply appends_bind;
    [apply appends_keeps, keeps_resolve_msg_time|intros t].
  apply appends_lift_bind; intros mtype.
  apply appends_bind;
    [apply appends_keeps, keeps_message_content|intros [[text b] mime]].
  apply appends_lift_bind; intros urls s.
  destruct (save_links_rows w f name t b mime urls s) as [added [E [_ F]]].
  exists added. split; [exact E|].
  eapply Forall_impl; [|exact F]. intros d Hd. apply Hd.
Qed.



(** ** Bodies without entries, entries that are not objects *)



Lemma process_entry_not_object (w : Env) (bad : json) :
  is_object bad = false -> raises_early (process_entry w bad).
Proof.
  intros H s. exists AttributeError, s.
  destruct bad; try discriminate; now split.
Qed.



(** ** [make_card_title] *)

Lemma nth_split_0 (s : pystr) :
  nth_error (str_split 47%N s) 0 = Some (up_to_slash s).
Proof.
  induction s as [|c s IH]; [reflexivity|]. cbn [str_split up_to_slash].
  destruct (c =? 47)%N; [reflexivity|].
  destruct (str_split 47%N s) as [|part rest]; [discriminate|].
  cbn in IH |- *. congruence.
Qed.

Lemma nth_split_skip (c : codepoint) (s : pystr) (k : nat) :
  (c =? 47)%N = false ->
  nth_error (str_split 47%N (c :: s)) (S k)
  = nth_error (str_split 47%N s) (S k).
Proof.
  intros H. cbn [str_split]. rewrite H.
  pose proof (nth_split_0 s) as H0.
  destruct (str_split 47%N s) as [|part rest]; [discriminate|reflexivity].
Qed.

Lemma nth_split_slash (s : pystr) (k : nat) :
  nth_error (str_split 47%N (47%N :: s)) (S k)
  = nth_error (str_split 47%N s) k.
Proof. reflexivity. Qed.

Lemma ignorecase_not_slash (l c : codepoint) :
  In l [104; 116; 112; 115]%N -> ignorecase l c = true -> (c =? 47)%N = false.
Proof.
  intros Hl Hc. unfold ignorecase in Hc. cbn in Hl.
  destruct Hl as [<-|[<-|[<-|[<-|[]]]]]; cbn in Hc;
    repeat rewrite ?orb_false_r, ?orb_true_iff, ?andb_true_iff in Hc;
    repeat match goal with
           | H : _ \/ _ |- _ => destruct H
           | H : _ /\ _ |- _ => destruct H
           | H : (_ =? _)%N = true |- _ => apply N.eqb_eq in H; subst
           end;
    try reflexivity; try discriminate.
Qed.

Lemma starts_with_cons (p : codepoint -> bool) (ps : list (codepoint -> bool))
      (s : pystr) :
  starts_with (p :: ps) s = true ->
  exists c s', s = c :: s' /\ p c = true /\ starts_with ps s' = true.
Proof.
  destruct s as [|c s']; [discriminate|]. cbn [starts_with].
  intros H. apply andb_true_iff in H. exists c, s'. tauto.
Qed.

Ltac scheme_chars H :=
  cbn [app] in H;
  repeat (apply starts_with_cons in H;
          destruct H as [?c [?s [-> [?H H]]]]);
  unfold literal in *;
  repeat match goal with
         | E : (_ =? _)%N = true |- _ => apply N.eqb_eq in E; subst
         end.

(** The third part of a text that starts with a scheme is its host. *)
Lemma split_after_scheme (u : pystr) :
  starts_with scheme_https u = true \/ starts_with scheme_http u = true ->
  nth_error (str_split 47%N u) 2 = Some (up_to_slash (after_scheme u)).
Proof.
  intros H. unfold after_scheme.
  destruct (starts_with scheme_https u) eqn:Es.
  - clear H. unfold scheme_https, letters_http, colon_slashes in Es.
    scheme_chars Es.
    rewrite !nth_split_skip
      by (reflexivity
          || (eapply ignorecase_not_slash; [|eassumption]; cbn; tauto)).
    rewrite !nth_split_slash. apply nth_split_0.
  - destruct H as [H|H]; [discriminate|]. clear Es.
    unfold scheme_http, letters_http, colon_slashes in H.
    scheme_chars H.
    rewrite !nth_split_skip
      by (reflexivity
          || (eapply ignorecase_not_slash; [|eassumption]; cbn; tauto)).
    rewrite !nth_split_slash. apply nth_split_0.
Qed.

(** X16. The title of a link, as the webhook stores them, names its
    host: the text between the scheme and the next slash.  The title never
    falls back to the plain one for such a link. *)
Theorem make_card_title_names_the_host :
  forall (u : pystr),
    link_shaped u ->
    make_card_title (Some u)
    = lit "Oferta em " ++ up_to_slash (after_scheme u).
Proof.
  intros u [Hs _]. unfold make_card_title.
  rewrite split_after_scheme; [reflexivity|].
  unfold link_start in Hs. apply orb_true_iff in Hs.
  destruct Hs as [Hs|Hs]; apply andb_true_iff in Hs; tauto.
Qed.

Lemma make_card_title_names_the_host_witness :
  make_card_title (Some (lit "HTTPS://Loja.com/p/1"))
  = lit "Oferta em " ++ up_to_slash (after_scheme (lit "HTTPS://Loja.com/p/1")).
Proof.
  apply make_card_title_names_the_host.
  split; [reflexivity|]. repeat constructor.
Defined.

Lemma str_split_length (s : pystr) :
  length (str_split 47%N s) = S (count_slashes s).
Proof.
  unfold count_slashes. induction s as [|c s IH]; [reflexivity|].
  cbn [str_split filter]. destruct (c =? 47)%N; cbn [length].
  - now rewrite IH.
  - destruct (str_split 47%N s) as [|part rest]; [discriminate|].
    cbn [length] in *. exact IH.
Qed.

(** X17. The title is the plain [Oferta] exactly for an absent link and
    for a text with fewer than two slashes; [make_card_title] never
    raises. *)
Theorem make_card_title_plain :
  forall (url : option pystr),
    make_card_title url = lit "Oferta"
    <-> match url with
        | Some u => (count_slashes u < 2)%nat
        | None => True
        end.
Proof.
  intros [u|]; [|cbn; tauto]. unfold make_card_title.
  pose proof (str_split_length u) as Hl.
  destruct (nth_error (str_split 47%N u) 2) as [host|] eqn:E.
  - split.
    + intros H. apply (f_equal (@length codepoint)) in H.
      rewrite length_app in H. cbn in H. lia.
    + intros H. assert (Hn : nth_error (str_split 47%N u) 2 <> None)
        by congruence.
      apply nth_error_Some in Hn. lia.
  - split; [intros _|reflexivity].
    apply nth_error_None in E. lia.
Qed.

(** ** [infer_source] *)

Lemma str_startswith_app (n b : pystr) : str_startswith n (n ++ b) = true.
Proof.
  induction n as [|c n IH]; [reflexivity|].
  cbn [app str_startswith]. now rewrite N.eqb_refl.
Qed.

Lemma str_startswith_iff (n h : pystr) :
  str_startswith n h = true <-> exists b, h = n ++ b.
Proof.
  split.
  - revert h. induction n as [|c n IH]; intros h H; [now exists h|].
    destruct h as [|x h]; [discriminate|]. cbn [str_startswith] in H.
    apply andb_true_iff in H. destruct H as [Hc Hn].
    apply N.eqb_eq in Hc. subst x. destruct (IH h Hn) as [b ->].
    now exists b.
  - intros [b ->]. apply str_startswith_app.
Qed.

Lemma str_contains_iff (n h : pystr) :
  str_contains n h = true <-> exists a b, h = a ++ n ++ b.
Proof.
  split.
  - induction h as [|x h IH]; cbn [str_contains]; intros H;
      apply orb_true_iff in H; destruct H as [H|H]; try discriminate.
    + apply str_startswith_iff in H. destruct H as [b ->]. now exists [], b.
    + apply str_startswith_iff in H. destruct H as [b ->]. now exists [], b.
    + destruct (IH H) as [a [b ->]]. now exists (x :: a), b.
  - intros [a [b ->]]. induction a as [|x a IH].
    + cbn [app]. destruct n as [|c n]; [now destruct b|].
      cbn [app str_contains]. change (c :: n ++ b) with ((c :: n) ++ b).
      now rewrite str_startswith_app.
    + cbn [app str_contains]. rewrite IH. apply orb_true_r.
Qed.

(** The lowercase of a stretch of ASCII characters does not depend on what
    surrounds it. *)
Lemma lower_from_ascii (special : pystr -> codepoint -> pystr -> pystr)
      (k before rest : pystr) :
  is_ascii k ->
  lower_from special before (k ++ rest)
  = map ascii_lower k ++ lower_from special (before ++ k) rest.
Proof.
  intros Hk. revert before.
  induction Hk as [|c k Hc Hk IH]; intros before.
  - now rewrite app_nil_r.
  - cbn [app lower_from map]. apply N.ltb_lt in Hc. rewrite Hc.
    rewrite IH, <- app_assoc. reflexivity.
Qed.

Lemma lower_from_app (special : pystr -> codepoint -> pystr -> pystr)
      (a before rest : pystr) :
  exists p,
    lower_from special before (a ++ rest)
    = p ++ lower_from special (before ++ a) rest.
Proof.
  revert before. induction a as [|c a IH]; intros before.
  - exists []. now rewrite app_nil_r.
  - cbn [app lower_from]. destruct (IH (before ++ [c])) as [p ->].
    rewrite <- app_assoc. cbn [app]. eexists. now rewrite app_assoc.
Qed.

Lemma str_lower_ascii (special : pystr -> codepoint -> pystr -> pystr)
      (u : pystr) :
  is_ascii u -> str_lower special u = map ascii_lower u.
Proof.
  intros Hu. unfold str_lower.
  rewrite <- (app_nil_r u) at 1. rewrite lower_from_ascii by exact Hu.
  cbn. apply app_nil_r.
Qed.

(** A keyword a text mentions is in its lowercase. *)
Lemma mentions_contains (special : pystr -> codepoint -> pystr -> pystr)
      (kw u : pystr) :
  mentions kw u -> str_contains kw (str_lower special u) = true.
Proof.
  intros [a [k [b [-> [Hk Hkw]]]]]. unfold str_lower.
  destruct (lower_from_app special a [] (k ++ b)) as [p ->].
  rewrite lower_from_ascii by exact Hk. rewrite Hkw.
  apply str_contains_iff. eauto.
Qed.

Lemma contains_mentions (kw u : pystr) :
  is_ascii u ->
  str_contains kw (map ascii_lower u) = true <-> mentions kw u.
Proof.
  intros Hu. split.
  - intros H. apply str_contains_iff in H. destruct H as [a [b H]].
    apply map_eq_app in H. destruct H as [a' [r [-> [Ha H]]]].
    apply map_eq_app in H. destruct H as [k [b' [-> [Hk Hb]]]].
    exists a', k, b'. split; [reflexivity|]. split; [|exact Hk].
    apply Forall_app in Hu. destruct Hu as [_ Hu].
    apply Forall_app in Hu. tauto.
  - intros [a [k [b [-> [Hk Hkw]]]]]. rewrite !map_app, Hkw.
    apply str_contains_iff. eauto.
Qed.

(** X18. A link that mentions [amazon.], its letters in either ASCII
    case, is labelled [Amazon], whatever else it mentions and whatever
    the characters around: the first test wins. *)
Theorem infer_source_amazon_first :
  forall (g : GalleryEnv) (u : pystr),
    mentions (lit "amazon.") u ->
    infer_source g (Some u) = lit "Amazon".
Proof.
  intros g u H. unfold infer_source.
  now rewrite (mentions_contains (unicode_lower g) H).
Qed.

Lemma infer_source_amazon_first_witness :
  infer_source test_gallery
    (Some (lit "https://shopee.com.br/" ++ [8490%N]
           ++ lit "AMAZON.com" ++ lit "/mercadolivre"))
  = lit "Amazon".
Proof.
  apply infer_source_amazon_first.
  exists (lit "https://shopee.com.br/" ++ [8490%N]), (lit "AMAZON."),
         (lit "com" ++ lit "/mercadolivre").
  split; [reflexivity|]. split; [|reflexivity].
  unfold is_ascii. repeat (constructor; [reflexivity|]). constructor.
Defined.

(** X19. The label of a link of ASCII characters is decided by the
    keywords it mentions, in either letter case, in this order: [Amazon]
    for [amazon.]; else [Mercado Livre] for [mercadolivre] or [meli.]; else
    [Shopee] for [shopee.]; else [Link]. *)
Theorem infer_source_of_ascii_link :
  forall (g : GalleryEnv) (u : pystr),
    is_ascii u ->
    let am := mentions (lit "amazon.") u in
    let ml := mentions (lit "mercadolivre") u \/ mentions (lit "meli.") u in
    let sh := mentions (lit "shopee.") u in
    (infer_source g (Some u) = lit "Amazon" <-> am)
    /\ (infer_source g (Some u) = lit "Mercado Livre" <-> ~ am /\ ml)
    /\ (infer_source g (Some u) = lit "Shopee" <-> ~ am /\ ~ ml /\ sh)
    /\ (infer_source g (Some u) = lit "Link" <-> ~ am /\ ~ ml /\ ~ sh).
Proof.
  intros g u Hu. cbv zeta. unfold infer_source.
  rewrite (str_lower_ascii (unicode_lower g) Hu).
  pose proof (contains_mentions (lit "amazon.") Hu) as Ha.
  pose proof (contains_mentions (lit "mercadolivre") Hu) as Hm.
  pose proof (contains_mentions (lit "meli.") Hu) as Hl.
  pose proof (contains_mentions (lit "shopee.") Hu) as Hs.
  assert (D : forall a b : string,
             pystr_eqb (lit a) (lit b) = false -> lit a <> lit b).
  { intros a b E H. apply pystr_eqb_eq in H. congruence. }
  pose proof (D "Amazon" "Mercado Livre" eq_refl)%string.
  pose proof (D "Amazon" "Shopee" eq_refl)%string.
  pose proof (D "Amazon" "Link" eq_refl)%string.
  pose proof (D "Mercado Livre" "Shopee" eq_refl)%string.
  pose proof (D "Mercado Livre" "Link" eq_refl)%string.
  pose proof (D "Shopee" "Link" eq_refl)%string.
  clear D.
  generalize dependent (lit "Amazon"). generalize dependent (lit "Link").
  generalize dependent (lit "Shopee").
  generalize dependent (lit "Mercado Livre").
  intros lm ls ll la Dam Das Dal Dms Dml Dsl.
  destruct (str_contains (lit "amazon.") (map ascii_lower u));
    destruct (str_contains (lit "mercadolivre") (map ascii_lower u));
    destruct (str_contains (lit "meli.") (map ascii_lower u));
    destruct (str_contains (lit "shopee.") (map ascii_lower u));
    cbn [orb];
    intuition (try congruence; try discriminate).
Qed.

Lemma infer_source_of_ascii_link_witness :
  infer_source test_gallery (Some (lit "https://www.MercadoLivre.com.br/x"))
  = lit "Mercado Livre"
  <-> ~ mentions (lit "amazon.") (lit "https://www.MercadoLivre.com.br/x")
      /\ (mentions (lit "mercadolivre")
                   (lit "https://www.MercadoLivre.com.br/x")
          \/ mentions (lit "meli.") (lit "https://www.MercadoLivre.com.br/x")).
Proof.
  apply (infer_source_of_ascii_link test_gallery).
  unfold is_ascii. repeat (constructor; [reflexivity|]). constructor.
Defined.

(** ** [img] *)

Lemma db_conn_run (w : Env) (s : State) :
  db_conn w s
  = if is_empty (DATABASE_URL w) then (Raise RuntimeError, s)
    else (if db_connect w (tick s) then Ok tt else Raise DatabaseError,
          mkState (deals s) (next_id s) (S (tick s))).
Proof.
  unfold db_conn. destruct (is_empty (DATABASE_URL w)); [reflexivity|].
  rewrite bind_run. cbn. now destruct (db_connect w (tick s)).
Qed.

Lemma find_id_unique (rows : list Deal) (d : Deal) :
  NoDup (map id rows) -> In d rows ->
  find (fun x => (id x =? id d)%Z) rows = Some d.
Proof.
  induction rows as [|x rows IH]; intros Hnd Hin; [destruct Hin|].
  cbn [map] in Hnd. inversion Hnd as [|? ? Hx Hnd']; subst.
  cbn [find]. destruct Hin as [->|Hin].
  - now rewrite Z.eqb_refl.
  - destruct (id x =? id d)%Z eqn:E; [|now apply IH].
    apply Z.eqb_eq in E. exfalso. apply Hx. rewrite E. now apply in_map.
Qed.

Lemma find_append {A} (p : A -> bool) (a b : list A) :
  find p (a ++ b)
  = match find p a with Some x => Some x | None => find p b end.
Proof.
  induction a as [|x a IH]; [reflexivity|]. cbn [app find].
  now destruct (p x).
Qed.





(** ** The gallery *)

Lemma insert_desc_perm (d : Deal) (l : list Deal) :
  Permutation (insert_desc d l) (d :: l).
Proof.
  induction l as [|x l IH]; [apply Permutation_refl|]. cbn [insert_desc].
  destruct (instant (created_at x) <=? instant (created_at d))%Z.
  - apply Permutation_refl.
  - eapply perm_trans; [apply perm_skip, IH|apply perm_swap].
Qed.

Lemma sort_desc_perm (l : list Deal) : Permutation (sort_desc l) l.
Proof.
  induction l as [|d l IH]; [apply perm_nil|]. cbn [sort_desc fold_right].
  eapply perm_trans; [apply insert_desc_perm|]. now apply perm_skip.
Qed.

Lemma insert_desc_sorted (d : Deal) (l : list Deal) :
  newest_first l -> newest_first (insert_desc d l).
Proof.
  unfold newest_first. intros H.
  induction H as [|x l Hl IH Hx]; cbn [insert_desc].
  - repeat constructor.
  - destruct (instant (created_at x) <=? instant (created_at d))%Z eqn:E.
    + apply Z.leb_le in E. constructor; [now constructor|].
      constructor; [exact E|].
      eapply Forall_impl; [|exact Hx]. unfold newer_or_same. intros; lia.
    + apply Z.leb_gt in E. constructor; [exact IH|].
      eapply Permutation_Forall;
        [apply Permutation_sym, insert_desc_perm|].
      constructor; [unfold newer_or_same; lia|exact Hx].
Qed.

Lemma sort_desc_sorted (l : list Deal) : newest_first (sort_desc l).
Proof.
  induction l as [|d l IH]; [constructor|].
  cbn [sort_desc fold_right]. now apply insert_desc_sorted.
Qed.

Lemma Forall_firstn {A} (P : A -> Prop) (k : nat) (l : list A) :
  Forall P l -> Forall P (firstn k l).
Proof.
  intros H. revert k. induction H; intros [|k]; cbn; constructor; auto.
Qed.

Lemma newest_first_firstn (k : nat) (l : list Deal) :
  newest_first l -> newest_first (firstn k l).
Proof.
  unfold newest_first. intros H. revert k.
  induction H as [|x l Hl IH Hx]; intros [|k]; cbn [firstn];
    try constructor; [apply IH|now apply Forall_firstn].
Qed.

Lemma sorted_app_order (a b : list Deal) :
  newest_first (a ++ b) ->
  forall x y, In x a -> In y b -> newer_or_same x y.
Proof.
  unfold newest_first. induction a as [|c a IH]; intros H x y Hx Hy;
    [destruct Hx|].
  cbn [app] in H. inversion H as [|? ? Hs Hc]; subst.
  destruct Hx as [->|Hx]; [|now apply IH].
  rewrite Forall_forall in Hc. apply Hc, in_or_app. now right.
Qed.

(** The day [n] days before has the same time of day: the instant is
    [n] days back. *)
Lemma minus_days_instant (t since : datetime) (n : Z) :
  minus_days t n = Ok since -> instant since = (instant t - n * day_us)%Z.
Proof.
  unfold minus_days.
  set (o := (ymd2ord (year t) (month t) (day t) - n)%Z).
  destruct ((1 <=? o)%Z && (o <=? max_ordinal)%Z); [|discriminate].
  pose proof (ord2ymd_inverse o) as Hi.
  destruct (ord2ymd o) as [[y m] d]. destruct Hi as [Ho _].
  intros H. inversion H; subst since; clear H.
  unfold instant, timestamp_of, day_us.
  cbn [year month day hour minute second microsecond].
  rewrite Ho. unfold o. lia.
Qed.

Lemma in_gallery_spec (since : datetime) (d : Deal) :
  in_gallery since d = true
  <-> image_bytes d <> None
      /\ (instant since <= instant (created_at d))%Z.
Proof.
  unfold in_gallery. rewrite andb_true_iff, Z.leb_le.
  destruct (image_bytes d); intuition congruence.
Qed.

(** X22. The query of the gallery returns rows of the table that hold an
    image and were created at or after [since], newest first, not more than
    the limit, and no row more often than the table has it. *)
Theorem select_gallery_sound :
  forall (since : datetime) (limit : Z) (rows out : list Deal),
    select_gallery since limit rows = Ok out ->
    (Z.of_nat (length out) <= limit)%Z
    /\ newest_first out
    /\ Forall (fun d => In d rows /\ image_bytes d <> None
                        /\ (instant since <= instant (created_at d))%Z) out
    /\ exists rest, Permutation (out ++ rest) (filter (in_gallery since) rows).
Proof.
  intros since limit rows out. unfold select_gallery.
  destruct ((0 <=? limit)%Z && (limit <? 2 ^ 63)%Z) eqn:El; [|discriminate].
  apply andb_true_iff in El. destruct El as [El _]. apply Z.leb_le in El.
  intros H. injection H as <-.
  set (sorted := sort_desc (filter (in_gallery since) rows)).
  assert (Hp : Permutation sorted (filter (in_gallery since) rows))
    by apply sort_desc_perm.
  split; [|split; [|split]].
  - rewrite length_firstn. lia.
  - apply newest_first_firstn, sort_desc_sorted.
  - apply Forall_firstn.
    eapply Permutation_Forall; [apply Permutation_sym, Hp|].
    apply Forall_forall. intros d Hd. apply filter_In in Hd.
    destruct Hd as [Hin Hg]. apply in_gallery_spec in Hg. tauto.
  - exists (skipn (Z.to_nat limit) sorted). now rewrite firstn_skipn.
Qed.

Lemma select_gallery_sound_witness :
  (Z.of_nat (length [gallery_row 3 (lit "https://shopee.com.br/c")
                       (Some [2%Z]) 30]) <= 1)%Z.
Proof.
  apply (@select_gallery_sound (DT 2024 1 1 0 0 0 0) 1 (deals gallery_state)
           [gallery_row 3 (lit "https://shopee.com.br/c") (Some [2%Z]) 30]).
  vm_compute. reflexivity.
Defined.

(** X23. The query of the gallery leaves out no row it could return: a
    row of the table with an image, created at or after [since], is
    returned, unless the limit is reached by rows none of which is older
    than it. *)
Theorem select_gallery_complete :
  forall (since : datetime) (limit : Z) (rows out : list Deal) (d : Deal),
    select_gallery since limit rows = Ok out ->
    In d rows ->
    image_bytes d <> None ->
    (instant since <= instant (created_at d))%Z ->
    In d out
    \/ (Z.of_nat (length out) = limit
        /\ Forall (fun x => newer_or_same x d) out).
Proof.
  intros since limit rows out d. unfold select_gallery.
  destruct ((0 <=? limit)%Z && (limit <? 2 ^ 63)%Z) eqn:El; [|discriminate].
  apply andb_true_iff in El. destruct El as [El _]. apply Z.leb_le in El.
  intros H Hin Hb Hs. injection H as <-.
  set (sorted := sort_desc (filter (in_gallery since) rows)).
  assert (Hd : In d sorted).
  { eapply Permutation_in; [apply Permutation_sym, sort_desc_perm|].
    apply filter_In. split; [exact Hin|]. now apply in_gallery_spec. }
  rewrite <- (firstn_skipn (Z.to_nat limit) sorted) in Hd.
  apply in_app_or in Hd. destruct Hd as [Hd|Hd]; [now left|]. right.
  split.
  - rewrite length_firstn.
    destruct (Nat.le_gt_cases (length sorted) (Z.to_nat limit)) as [Hl|Hl];
      [|lia].
    rewrite skipn_all2 in Hd by exact Hl. destruct Hd.
  - apply Forall_forall. intros x Hx.
    apply (@sorted_app_order (firstn (Z.to_nat limit) sorted)
                              (skipn (Z.to_nat limit) sorted));
      [|exact Hx|exact Hd].
    rewrite firstn_skipn. apply sort_desc_sorted.
Qed.

Lemma select_gallery_complete_witness :
  In (gallery_row 1 (lit "https://www.amazon.com.br/a") (Some [1%Z]) 10)
     [gallery_row 3 (lit "https://shopee.com.br/c") (Some [2%Z]) 30]
  \/ (Z.of_nat (length [gallery_row 3 (lit "https://shopee.com.br/c")
                          (Some [2%Z]) 30]) = 1%Z
      /\ Forall (fun x => newer_or_same x
                   (gallery_row 1 (lit "https://www.amazon.com.br/a")
                                (Some [1%Z]) 10))
           [gallery_row 3 (lit "https://shopee.com.br/c") (Some [2%Z]) 30]).
Proof.
  apply (@select_gallery_complete (DT 2024 1 1 0 0 0 0) 1
           (deals gallery_state)).
  - vm_compute. reflexivity.
  - cbn. tauto.
  - discriminate.
  - vm_compute. discriminate.
Defined.



(** ** Fragments that are not objects *)

Lemma process_message_not_object (w : Env) (name bad : json) :
  is_object bad = false -> raises_early (process_message w name bad).
Proof.
  intros H s. exists AttributeError, s.
  destruct bad; try discriminate; now split.
Qed.



Lemma process_change_bad_contact (w : Env) (c0 : json)
      (others messages : list json) :
  is_object c0 = false ->
  raises_early
    (process_change w (value_change (JArr (c0 :: others)) messages)).
Proof.
  intros H s. exists AttributeError, s. rewrite process_change_value.
  destruct c0; try discriminate; now split.
Qed.



(** ** A save that raises *)


